(** * E-signature utilities of the CRM: field validation, signing progress,
      PDF embedding and signer validation

    Shallow embedding of [src/esignature-utils.ts] (validateFieldCoordinates,
    embedSignaturesInPDF, dataURLToBytes, areAllRequiredFieldsSigned,
    getNextRequiredField) and of [validateSigners] / [handleSave] from
    [src/signer-setup-modal.tsx].  Further on: validateEmail,
    validatePDFFile, getFieldTypeDisplayName and extractPDFMetadata of the
    utilities, the list edits of the signer dialog, [handleDrop] of the PDF
    viewers and the field filters of [src/public-signing-view.tsx].

    Conventions of the embedding.
    - A JavaScript [string] is the list of its UTF-16 code units ([list N]).
    - A field's percentages are the rationals ([Q]) that the numbers denote.
      The validator, the sort and [handleDrop] are modelled on them:
      comparing and clamping are exact, and the two sums of the validator
      are taken exactly (binary64 rounds a sum such as
      80 + 20.000000000000004 to 100).  The embedder computes with the
      percentages in binary64, on the kernel's floating-point numbers
      ([float]); page sizes and the arguments of the drawing calls are such
      numbers.
    - [pageNumber] is an integer-valued number ([Z]); fractions, [NaN] and
      the infinities are outside the model.  The grouping object of the
      embedder is keyed by [String(pageNumber)], read back by [parseInt]:
      the decimal numeral below 2^53, and beyond that the shortest digits
      that denote the number, in exponent notation from 10^21 on.
    - [undefined] for an optional property is [None].
    - The PDF library (pdf-lib) and [atob] are outside the repository; they are
      an interface ([PdfLib]).  A call on the document either completes or
      throws, and the document handed to [save] is the loaded input together
      with the calls that completed on it, in order. *)

From Stdlib Require Import ZArith QArith Qminmax Lia Lqa.
From Stdlib Require Import Ascii String Sorted.
From Stdlib Require Import Floats.
From stdpp Require Import base list gmap.

Local Open Scope Z_scope.

(** ** JavaScript strings *)

Module JS.

Abbreviation jsstring := (list N).

(** A source literal, as code units. *)
Definition str (s : string) : jsstring :=
  List.map N_of_ascii (list_ascii_of_string s).

(** ECMAScript WhiteSpace and LineTerminator code points: what
    [String.prototype.trim] strips and what [\s] matches. *)
Definition isWhiteSpace (c : N) : bool :=
  ((c =? 0x09) || (c =? 0x0A) || (c =? 0x0B) || (c =? 0x0C) || (c =? 0x0D)
   || (c =? 0x20) || (c =? 0xA0) || (c =? 0x1680)
   || ((0x2000 <=? c) && (c <=? 0x200A))
   || (c =? 0x2028) || (c =? 0x2029) || (c =? 0x202F) || (c =? 0x205F)
   || (c =? 0x3000) || (c =? 0xFEFF))%N.

Fixpoint trimStart (s : jsstring) : jsstring :=
  match s with
  | [] => []
  | c :: s' => if isWhiteSpace c then trimStart s' else s
  end.

Definition trimEnd (s : jsstring) : jsstring := rev (trimStart (rev s)).

(** [s.trim()] *)
Definition trim (s : jsstring) : jsstring := trimEnd (trimStart s).

(** [a === b] on strings *)
Definition str_eqb (a b : jsstring) : bool := bool_decide (a = b).

(** Truthiness of an optional string: [undefined] and [''] are falsy. *)
Definition truthy (v : option jsstring) : bool :=
  match v with
  | None => false
  | Some [] => false
  | Some (_ :: _) => true
  end.

(** [s.startsWith(p)] *)
Fixpoint startsWith (s p : jsstring) : bool :=
  match p, s with
  | [], _ => true
  | _ :: _, [] => false
  | a :: p', b :: s' => (a =? b)%N && startsWith s' p'
  end.

(** [s.includes(p)] *)
Fixpoint includes (s p : jsstring) : bool :=
  startsWith s p ||
  match s with
  | [] => false
  | _ :: s' => includes s' p
  end.

(** [s.split(sep)] for a one-unit separator: the pieces between separators
    (a string without separator gives one piece, the string itself). *)
Fixpoint split (sep : N) (s : jsstring) : list jsstring :=
  match s with
  | [] => [[]]
  | c :: s' =>
      if (c =? sep)%N then [] :: split sep s'
      else match split sep s' with
           | [] => [[c]]
           | piece :: pieces => (c :: piece) :: pieces
           end
  end.

(** [String(undefined)], the argument [atob] receives when [split(',')[1]]
    does not exist. *)
Definition undefined_string : jsstring := str "undefined".

End JS.
Import JS.

(** ** Regular expressions (the fragment the e-mail pattern needs)

    Matching a code-unit string against an anchored pattern [/^r$/], by
    derivatives. *)

Module RegExp.

Inductive regex : Type :=
| Void : regex
| Eps : regex
| CharClass (p : N -> bool) : regex
| Cat (r s : regex) : regex
| Alt (r s : regex) : regex
| Star (r : regex) : regex.

(** [r+] *)
Definition Plus (r : regex) : regex := Cat r (Star r).

Fixpoint nullable (r : regex) : bool :=
  match r with
  | Void => false
  | Eps => true
  | CharClass _ => false
  | Cat r s => nullable r && nullable s
  | Alt r s => nullable r || nullable s
  | Star _ => true
  end.

Fixpoint deriv (c : N) (r : regex) : regex :=
  match r with
  | Void => Void
  | Eps => Void
  | CharClass p => if p c then Eps else Void
  | Cat r s =>
      if nullable r then Alt (Cat (deriv c r) s) (deriv c s)
      else Cat (deriv c r) s
  | Alt r s => Alt (deriv c r) (deriv c s)
  | Star r => Cat (deriv c r) (Star r)
  end.

(** [/^r$/.test(s)] *)
Definition test (r : regex) (s : jsstring) : bool :=
  nullable (fold_left (fun r c => deriv c r) s r).

Definition char (a : ascii) : regex :=
  CharClass (fun c => (c =? N_of_ascii a)%N).

(** [[^\s@]] *)
Definition notSpaceNorAt : regex :=
  CharClass (fun c => negb (isWhiteSpace c) && negb (c =? N_of_ascii "@")%N).

(** [/^[^\s@]+@[^\s@]+\.[^\s@]+$/] *)
Definition emailRegex : regex :=
  Cat (Plus notSpaceNorAt)
    (Cat (char "@")
       (Cat (Plus notSpaceNorAt)
          (Cat (char ".") (Plus notSpaceNorAt)))).

End RegExp.

(** ** Signature fields *)

Inductive FieldType : Type := SIGNATURE | INITIALS | DATE | TEXT | CHECKBOX.

Record SignatureFieldData : Type := mkField {
  id : jsstring;
  type : FieldType;
  pageNumber : Z;
  x : Q;          (* percentage *)
  y : Q;          (* percentage *)
  width : Q;      (* percentage *)
  height : Q;     (* percentage *)
  required : bool;
  signerId : option jsstring;
  value : option jsstring;
  signatureType : option jsstring
}.

(** [Partial<SignatureFieldData>], for the properties the validator reads. *)
Record PartialField : Type := mkPartial {
  p_x : option Q;
  p_y : option Q;
  p_width : option Q;
  p_height : option Q
}.

Definition asPartial (f : SignatureFieldData) : PartialField :=
  {| p_x := Some (x f); p_y := Some (y f);
     p_width := Some (width f); p_height := Some (height f) |}.

(** Comparisons of numbers, as booleans. *)
Definition Qltb (a b : Q) : bool := negb (Qle_bool b a).
Definition Qleb (a b : Q) : bool := Qle_bool a b.
Definition Qgtb (a b : Q) : bool := Qltb b a.

(** [!n] for an optional number: [undefined] and [0] are falsy. *)
Definition falsyNum (n : option Q) : bool :=
  match n with
  | None => true
  | Some q => Qeq_bool q 0%Q
  end.

(** [validateFieldCoordinates]: after the first line all four numbers are
    present. *)
Definition validateFieldCoordinates (field : PartialField) : bool :=
  if falsyNum (p_x field) || falsyNum (p_y field)
     || falsyNum (p_width field) || falsyNum (p_height field)
  then false
  else
    match p_x field, p_y field, p_width field, p_height field with
    | Some fx, Some fy, Some fw, Some fh =>
        (* Ensure coordinates are within bounds (0-100%) *)
        if Qltb fx 0%Q || Qgtb fx 100%Q then false
        else if Qltb fy 0%Q || Qgtb fy 100%Q then false
        else if Qleb fw 0%Q || Qgtb fw 100%Q then false
        else if Qleb fh 0%Q || Qgtb fh 100%Q then false
        (* Ensure field doesn't exceed page bounds *)
        else if Qgtb (fx + fw)%Q 100%Q then false
        else if Qgtb (fy + fh)%Q 100%Q then false
        else true
    | _, _, _, _ => false
    end.

(** ** Signing progress *)

(** The signer filter both functions apply,
    [!signerId || field.signerId === signerId]; the argument [signerId] of the
    source is [wanted] here, the record projection keeping the name. *)
Definition forSigner (wanted : option jsstring) (field : SignatureFieldData) : bool :=
  negb (truthy wanted) || bool_decide (signerId field = wanted).

(** [field.value && field.value.trim() !== ''] *)
Definition isFilled (field : SignatureFieldData) : bool :=
  match value field with
  | None => false
  | Some v => truthy (Some v) && negb (str_eqb (trim v) [])
  end.

(** [!field.value || field.value.trim() === ''] *)
Definition isUnfilled (field : SignatureFieldData) : bool :=
  match value field with
  | None => true
  | Some v => negb (truthy (Some v)) || str_eqb (trim v) []
  end.

Definition areAllRequiredFieldsSigned
    (fields : list SignatureFieldData) (wanted : option jsstring) : bool :=
  let requiredFields :=
    List.filter (fun field => required field && forSigner wanted field) fields in
  forallb isFilled requiredFields.

(** The comparator handed to [sort]: page number first, then [y]. *)
Definition compareFields (a b : SignatureFieldData) : Q :=
  if bool_decide (pageNumber a <> pageNumber b)
  then inject_Z (pageNumber a - pageNumber b)
  else (y a - y b)%Q.

(** [Array.prototype.sort(cmp)]: the stable sort.  For a comparator that is a
    consistent ordering the result is determined; it is computed here by
    insertion, an element staying in front of those it does not exceed. *)
Section Sort.
Context {A : Type} (cmp : A -> A -> Q).

Fixpoint insertSorted (a : A) (l : list A) : list A :=
  match l with
  | [] => [a]
  | b :: l' => if Qgtb (cmp a b) 0%Q then b :: insertSorted a l' else a :: l
  end.

Fixpoint sort (l : list A) : list A :=
  match l with
  | [] => []
  | a :: l' => insertSorted a (sort l')
  end.

(** [a] may stay in front of [b]: the comparator is not positive. *)
Definition notAfter (a b : A) : Prop := Qgtb (cmp a b) 0%Q = false.
End Sort.

(** The order of the guided signing flow: earlier page first, and on one
    page the smaller [y]. *)
Definition precedes (a b : SignatureFieldData) : Prop :=
  pageNumber a < pageNumber b
  \/ (pageNumber a = pageNumber b /\ (y a <= y b)%Q).

(** The candidates of [getNextRequiredField], before sorting. *)
Definition outstandingRequired
    (fields : list SignatureFieldData) (wanted : option jsstring)
    : list SignatureFieldData :=
  List.filter
    (fun field => required field && forSigner wanted field && isUnfilled field)
    fields.

(** [requiredFields[0] || null] is the head of the sorted candidates. *)
Definition getNextRequiredField
    (fields : list SignatureFieldData) (wanted : option jsstring)
    : option SignatureFieldData :=
  let requiredFields := outstandingRequired fields wanted in
  (* Sort by page number and position *)
  let requiredFields := sort compareFields requiredFields in
  head requiredFields.

(** ** JavaScript numbers

    Percentages of a field are kept as the rationals they denote, which is
    what the validator and the sort compare.  The embedder computes with
    them, and there JavaScript rounds: its arithmetic is done on binary64
    values ([float], the kernel's IEEE 754 numbers), each field number
    entering as the binary64 value it is. *)

Set Warnings "-inexact-float".

Module Number.

(** The binary64 value nearest to an integer. *)
Definition ofZ (z : Z) : float := SF2Prim (binary_normalize prec emax z 0 false).

(** The binary64 value of a number given as a rational: the quotient of
    numerator and denominator, correctly rounded.  It is the number itself
    for every binary64 value whose reduced denominator is at most 2^1023, and
    the value a decimal literal of up to 15 digits denotes. *)
Definition ofQ (q : Q) : float :=
  let r := Qred q in (ofZ (Qnum r) / ofZ (Zpos (Qden r)))%float.

(** [Math.min(a, b)]: [NaN] when one of them is, and [-0] below [+0]. *)
Definition min (a b : float) : float :=
  if is_nan a || is_nan b then nan
  else if (a <? b)%float then a
  else if (b <? a)%float then b
  else if get_sign a then a else b.

(** An integer read as a [Number]: itself up to 2^53, beyond that the
    nearest binary64 value, which is an integer again. *)
Definition toDouble (z : Z) : Z :=
  if Z.abs z <=? 2 ^ 53 then z
  else
    match binary_normalize prec emax z 0 false with
    | S754_finite s m e => (if s then -1 else 1) * (Zpos m * 2 ^ e)
    | _ => z
    end.

Definition digit (d : Z) : N := (48 + Z.to_N d)%N.

Fixpoint digitsOf (fuel : nat) (n : Z) (tail : jsstring) : jsstring :=
  match fuel with
  | O => tail
  | S fuel' =>
      let tail' := digit (n mod 10) :: tail in
      if n <? 10 then tail' else digitsOf fuel' (n / 10) tail'
  end.

(** The decimal numeral of a natural number. *)
Definition numeral (n : Z) : jsstring :=
  digitsOf (S (Z.to_nat (Z.log2 n))) n [].

(** The digits [s] of a decimal [s * 10^(exponent - k)] with [k] digits that
    reads back as the binary64 value [x]; of two, the closer one. *)
Definition roundTrips (x : Z) (exponent k : nat) : option Z :=
  let p := 10 ^ Z.of_nat (exponent - k) in
  let lo := x / p in
  let hi := lo + 1 in
  match toDouble (lo * p) =? x, toDouble (hi * p) =? x with
  | true, true =>
      Some (if x - lo * p <? hi * p - x then lo
            else if hi * p - x <? x - lo * p then hi
            else if Z.even lo then lo else hi)
  | true, false => Some lo
  | false, true => Some hi
  | false, false => None
  end.

(** The shortest such digits, trying 1, 2, ... digits. *)
Fixpoint shortest (x : Z) (exponent k fuel : nat) : Z * nat :=
  match fuel with
  | O => (x, exponent)
  | S fuel' =>
      match roundTrips x exponent k with
      | Some s => (s, k)
      | None => shortest x exponent (S k) fuel'
      end
  end.

(** [Number::toString] for an integer of magnitude 2^53 or more: the
    shortest digits that read back as the number, followed by zeros up to
    21 digits and in exponent notation beyond. *)
Definition largeToString (x : Z) : jsstring :=
  let n := length (numeral x) in
  let '(s, k) := shortest x n 1 n in
  let '(s, n) := if s =? 10 ^ Z.of_nat k then (s / 10, S n) else (s, n) in
  let digits := numeral s in
  if (n <=? 21)%nat then digits ++ repeat (digit 0) (n - k)
  else
    match digits with
    | [] => []
    | first :: rest =>
        first :: (match rest with [] => [] | _ :: _ => str "." ++ rest end)
        ++ str "e+" ++ numeral (Z.of_nat n - 1)
    end.

(** [String(n)] for an integer-valued number [n]: the property key of
    [acc[n]].  Below 2^53 it is the decimal numeral of [n]. *)
Definition toString (n : Z) : jsstring :=
  (if n <? 0 then str "-" else [])
  ++ (if Z.abs n <? 2 ^ 53 then numeral (Z.abs n)
      else largeToString (Z.abs (toDouble n))).

(** The value of a digit in a radix; letters count from ten. *)
Definition digitValue (radix : Z) (c : N) : option Z :=
  let c := Z.of_N c in
  let v := if (48 <=? c) && (c <=? 57) then c - 48
           else if (97 <=? c) && (c <=? 122) then c - 87
           else if (65 <=? c) && (c <=? 90) then c - 55
           else radix in
  if v <? radix then Some v else None.

(** The value of the longest prefix of digits; [acc] is [None] until a
    digit has been read. *)
Fixpoint scanDigits (radix : Z) (s : jsstring) (acc : option Z) : option Z :=
  match s with
  | [] => acc
  | c :: s' =>
      match digitValue radix c with
      | Some d => scanDigits radix s' (Some (radix * default 0 acc + d))
      | None => acc
      end
  end.

(** A leading sign and what follows it. *)
Definition signOf (s : jsstring) : Z * jsstring :=
  match s with
  | 45%N :: s' => (-1, s')
  | 43%N :: s' => (1, s')
  | _ => (1, s)
  end.

(** The radix: 16 after [0x] or [0X], otherwise 10. *)
Definition radixOf (s : jsstring) : Z * jsstring :=
  match s with
  | 48%N :: (120%N | 88%N) :: s' => (16, s')
  | _ => (10, s)
  end.

(** [parseInt(s)] without a radix argument: white space, a sign, the radix
    prefix, then the digits up to the first other character.  [None] is
    [NaN]. *)
Definition parseInt (s : jsstring) : option Z :=
  let '(sign, s) := signOf (trimStart s) in
  let '(radix, s) := radixOf s in
  match scanDigits radix s None with
  | Some v => Some (toDouble (sign * v))
  | None => None
  end.

(** A property key that is an array index: the canonical numeral of an
    integer from 0 to 2^32 - 2. *)
Definition arrayIndex (key : jsstring) : option Z :=
  match scanDigits 10 key None with
  | Some i =>
      if bool_decide (numeral i = key) && (i <? 2 ^ 32 - 1) then Some i else None
  | None => None
  end.

(** [Number.isSafeInteger], for an integer. *)
Definition isSafeInteger (n : Z) : Prop := Z.abs n < 2 ^ 53.

(** A decimal digit, as a code unit. *)
Definition isDigit (c : N) : Prop := (48 <= c <= 57)%N.

(** What may follow a leading digit without making a radix prefix of it:
    anything but [x] and [X]. *)
Definition noRadixMark (rest : jsstring) : Prop :=
  match rest with
  | [] => True
  | c2 :: _ => c2 <> 120%N /\ c2 <> 88%N
  end.

End Number.

(** ** The PDF library, as the embedder uses it *)

(** [page.getSize()] *)
Record PageSize : Type := mkSize { pageWidth : float; pageHeight : float }.

Inductive StandardFonts : Type := Helvetica | HelveticaBold.

Inductive ImageFormat : Type := Png | Jpg.

Record Color : Type := rgb { red : float; green : float; blue : float }.

(** The calls the embedder issues on the loaded document.  Pages are named by
    their 0-based index in [getPages()]. *)
Inductive Call : Type :=
| EmbedPng (imageBytes : list N)
| EmbedJpg (imageBytes : list N)
| EmbedFont (font : StandardFonts)
| DrawImage (page : nat) (format : ImageFormat) (imageBytes : list N)
    (ix iy iwidth iheight : float)
| DrawText (page : nat) (text : jsstring) (tx ty size : float)
    (font : StandardFonts) (color : Color) (maxWidth : option float)
| DrawRectangle (page : nat) (rx ry rwidth rheight : float)
    (borderColor : Color) (borderWidth : float).

(** A loaded document: the bytes it was parsed from, its pages, and the calls
    that completed on it so far, oldest first. *)
Record PDFDocument : Type := mkDoc {
  source : list N;
  pages : list PageSize;
  calls : list Call
}.

(** What the embedder relies on from outside the repository, for one run
    (an instance fixes the library and the moment of the run, which [save]
    may write into the file).
    - [load]: [PDFDocument.load] followed by [getPages]; [None] when the
      bytes do not parse and [load] throws.
    - [atob]: the decoded binary string, [None] when [atob] throws.
    - [completes]: whether a call on the document returns ([true]) or
      throws, as [embedPng] does on bytes that are no PNG image and
      [drawText] on a text the font cannot encode.
    - [save]: the serialisation of a document, [None] when it throws. *)
Class PdfLib : Type := {
  load : list N -> option (list PageSize);
  atob : jsstring -> option jsstring;
  completes : Call -> bool;
  save : PDFDocument -> option (list N)
}.

(** A promise of bytes, settled. *)
Inductive Outcome : Type :=
| Resolved (bytes : list N)
| Rejected (message : jsstring).

(** ** Calls and exceptions

    A piece of the embedder that works on the loaded document: the calls it
    completed on the document, in order, and its result, [None] when it
    ended by an exception. *)

Definition Run (A : Type) : Type := (list Call * option A)%type.

Definition ret {A : Type} (a : A) : Run A := ([], Some a).

Definition throw {A : Type} : Run A := ([], None).

Definition bind {A B : Type} (m : Run A) (k : A -> Run B) : Run B :=
  match snd m with
  | Some a => (fst m ++ fst (k a), snd (k a))
  | None => (fst m, None)
  end.

Notation "m >> k" := (bind m (fun _ => k))
  (at level 62, right associativity).

(** [try { body } catch { handler }] *)
Definition tryCatch {A : Type} (body handler : Run A) : Run A :=
  match snd body with
  | Some _ => body
  | None => (fst body ++ fst handler, snd handler)
  end.

(** One call on the document. *)
Definition call `{PdfLib} (c : Call) : Run unit :=
  if completes c then ([c], Some tt) else throw.

(** [for (const a of l) { body }] *)
Fixpoint forEach {A : Type} (body : A -> Run unit) (l : list A) : Run unit :=
  match l with
  | [] => ret tt
  | a :: l' => body a >> forEach body l'
  end.

(** The calls made and whether the piece ended normally. *)
Definition made {A : Type} (r : Run A) : list Call := fst r.
Definition threw {A : Type} (r : Run A) : bool :=
  match snd r with Some _ => false | None => true end.

(** ** Embedding signatures *)

(** [dataURLToBytes]: [None] when [atob] throws. *)
Definition dataURLToBytes `{PdfLib} (dataURL : jsstring) : option (list N) :=
  let base64 :=
    match nth_error (split (N_of_ascii ",") dataURL) 1 with
    | Some piece => piece
    | None => undefined_string
    end in
  match atob base64 with
  | Some binaryString => Some (List.map (fun c => (c mod 256)%N) binaryString)
  | None => None
  end.

(** Absolute coordinates from percentages: the four constants [x], [y],
    [width], [height] of the inner loop. *)
Record Box : Type := mkBox {
  absX : float; absY : float; absWidth : float; absHeight : float
}.

Definition absoluteBox (signature : SignatureFieldData) (size : PageSize) : Box :=
  {| absX := (Number.ofQ (x signature) / 100) * pageWidth size;
     absY := pageHeight size
             - ((Number.ofQ (y signature) / 100) * pageHeight size)
             - ((Number.ofQ (height signature) / 100) * pageHeight size);
     absWidth := (Number.ofQ (width signature) / 100) * pageWidth size;
     absHeight := (Number.ofQ (height signature) / 100) * pageHeight size |}%float.

Definition black : Color := rgb 0 0 0.

(** The check mark literal, as the source file spells it. *)
Definition checkMark : jsstring := [0xE2; 0x153; 0x201C]%N.

(** The body of the [try] block for an image value. *)
Definition embedImage `{PdfLib} (pageNum : nat) (v : jsstring) (b : Box)
    : Run unit :=
  match dataURLToBytes v with
  | None => throw
  | Some imageBytes =>
      if includes v (str "png")
      then call (EmbedPng imageBytes) >>
           call (DrawImage pageNum Png imageBytes
                   (absX b) (absY b) (absWidth b) (absHeight b))
      else call (EmbedJpg imageBytes) >>
           call (DrawImage pageNum Jpg imageBytes
                   (absX b) (absY b) (absWidth b) (absHeight b))
  end.

(** The [catch] block of the image value: the fallback to text. *)
Definition placeholder `{PdfLib} (pageNum : nat) (b : Box) : Run unit :=
  call (EmbedFont HelveticaBold) >>
  call (DrawText pageNum (str "[SIGNATURE]")
          (absX b) (absY b + absHeight b / 2)%float 12%float
          HelveticaBold black None).

(** One iteration of the inner loop, for [signature] on page index
    [pageNum] of size [size]. *)
Definition stampField `{PdfLib} (pageNum : nat) (size : PageSize)
    (signature : SignatureFieldData) : Run unit :=
  match value signature with
  | None => ret tt
  | Some [] => ret tt
  | Some v =>
      let b := absoluteBox signature size in
      match type signature with
      | SIGNATURE | INITIALS =>
          (* Handle image signatures *)
          if startsWith v (str "data:image/")
          then tryCatch (embedImage pageNum v b) (placeholder pageNum b)
          else ret tt
      | TEXT | DATE =>
          (* Handle text fields *)
          let fontSize := Number.min (absHeight b * 0.6)%float 12%float in
          call (EmbedFont Helvetica) >>
          call (DrawText pageNum v
                  (absX b) (absY b + absHeight b / 2 - fontSize / 2)%float
                  fontSize Helvetica black (Some (absWidth b)))
      | CHECKBOX =>
          (* Handle checkboxes *)
          let checkSize := (Number.min (absWidth b) (absHeight b) * 0.8)%float in
          call (EmbedFont HelveticaBold) >>
          call (DrawRectangle pageNum (absX b) (absY b) checkSize checkSize
                  black 1%float) >>
          if str_eqb v (str "checked")
          then call (DrawText pageNum checkMark
                       (absX b + checkSize * 0.1)%float
                       (absY b + checkSize * 0.1)%float
                       (checkSize * 0.8)%float HelveticaBold black None)
          else ret tt
      end
  end.

(** The property key under which a signature is grouped:
    [acc[sig.pageNumber]]. *)
Definition pageKey (sig : SignatureFieldData) : jsstring :=
  Number.toString (pageNumber sig).

(** The grouping object [signaturesByPage]: its properties in creation order.
    One step of the [reduce]: create the array when the key is new, push. *)
Fixpoint pushSignature (acc : list (jsstring * list SignatureFieldData))
    (sig : SignatureFieldData) : list (jsstring * list SignatureFieldData) :=
  match acc with
  | [] => [(pageKey sig, [sig])]
  | (key, sigs) :: acc' =>
      if str_eqb key (pageKey sig) then (key, sigs ++ [sig]) :: acc'
      else (key, sigs) :: pushSignature acc' sig
  end.

Definition signaturesByPage (signatures : list SignatureFieldData)
    : list (jsstring * list SignatureFieldData) :=
  fold_left pushSignature signatures [].

(** [Object.entries]: the array-index keys first, in ascending order, then
    the other keys in creation order. *)
Definition isArrayIndex (key : jsstring) : bool :=
  bool_decide (is_Some (Number.arrayIndex key)).

Definition indexOf {V : Type} (entry : jsstring * V) : Z :=
  default 0 (Number.arrayIndex (fst entry)).

Definition compareBy {A : Type} (index : A -> Z) (a b : A) : Q :=
  inject_Z (index a - index b).

Definition Object_entries {V : Type} (o : list (jsstring * V))
    : list (jsstring * V) :=
  sort (compareBy indexOf) (List.filter (fun e => isArrayIndex (fst e)) o)
  ++ List.filter (fun e => negb (isArrayIndex (fst e))) o.

(** The outer loop body.  The entry is skipped when the 0-based page index
    is out of range.  For a key that [parseInt] does not read, the index is
    [NaN], both comparisons are false, [pages[NaN]] is [undefined] and
    [getSize] throws. *)
Definition stampPage `{PdfLib} (loaded : list PageSize)
    (entry : jsstring * list SignatureFieldData) : Run unit :=
  match Number.parseInt (fst entry) with
  | None => throw
  | Some n =>
      let pageNum := Number.toDouble (n - 1) in (* Convert to 0-based index *)
      if (pageNum <? 0) || (pageNum >=? Z.of_nat (length loaded))
      then ret tt
      else
        match nth_error loaded (Z.to_nat pageNum) with
        | Some size => forEach (stampField (Z.to_nat pageNum) size) (snd entry)
        | None => throw
        end
  end.

(** The two loops. *)
Definition embedRun `{PdfLib} (loaded : list PageSize)
    (signatures : list SignatureFieldData) : Run unit :=
  forEach (stampPage loaded) (Object_entries (signaturesByPage signatures)).

Definition embedFailure : jsstring := str "Failed to embed signatures in PDF".

(** The end of the [try] block and the [catch]: the document is saved when
    the loops ended normally; any exception becomes the embedder's error. *)
Definition finish `{PdfLib} (pdfBytes : list N) (loaded : list PageSize)
    (r : Run unit) : Outcome :=
  match snd r with
  | Some _ =>
      match save {| source := pdfBytes; pages := loaded; calls := fst r |} with
      | Some bytes => Resolved bytes
      | None => Rejected embedFailure
      end
  | None => Rejected embedFailure
  end.

Definition embedSignaturesInPDF `{PdfLib} (pdfBytes : list N)
    (signatures : list SignatureFieldData) : Outcome :=
  match load pdfBytes with
  | None => Rejected embedFailure
  | Some loaded => finish pdfBytes loaded (embedRun loaded signatures)
  end.

(** ** Signer setup (signer-setup-modal) *)

(** [String.prototype.toLowerCase], a function of the host. *)
Class CaseMapping : Type := { toLowerCase : jsstring -> jsstring }.

Module SignerSetup.

Inductive Status : Type := PENDING | SENT | VIEWED | SIGNED | DECLINED.

Record Signer : Type := mkSigner {
  id : option jsstring;
  signerEmail : jsstring;
  signerName : jsstring;
  signerRole : option jsstring;
  signingOrder : Z;
  contactId : option jsstring;
  status : option Status
}.

Definition missingNameOrEmail : jsstring := str "All signers must have name and email".
Definition invalidEmail : jsstring := str "All email addresses must be valid".
Definition duplicateEmail : jsstring := str "Duplicate email addresses are not allowed".
Definition noSigner : jsstring := str "At least one signer is required".

(** The two checks of the loop body pass for [signer]. *)
Definition wellFormed (signer : Signer) : bool :=
  truthy (Some (signerEmail signer)) && truthy (Some (signerName signer))
  && RegExp.test RegExp.emailRegex (signerEmail signer).

(** The [for] loop of [validateSigners]: the message returned from inside
    the loop, if any. *)
Fixpoint checkEachSigner (signers : list Signer) : option jsstring :=
  match signers with
  | [] => None
  | signer :: rest =>
      if negb (truthy (Some (signerEmail signer)))
         || negb (truthy (Some (signerName signer)))
      then Some missingNameOrEmail
      else if negb (RegExp.test RegExp.emailRegex (signerEmail signer))
      then Some invalidEmail
      else checkEachSigner rest
  end.

(** [validateSigners]: [None] is [null], no error. *)
Definition validateSigners `{CaseMapping} (signers : list Signer) : option jsstring :=
  match checkEachSigner signers with
  | Some message => Some message
  | None =>
      (* Check for duplicate emails *)
      let emails := List.map (fun s => toLowerCase (signerEmail s)) signers in
      let uniqueEmails : gset jsstring := list_to_set emails in
      if bool_decide (length emails <> size uniqueEmails)
      then Some duplicateEmail
      else None
  end.

(** What becomes of one request of [handleSave]: the response is [ok]; it is
    not, and its body has the given [error] property ([None] when the body
    has none); or the request fails, [fetch] or [json()] rejecting with an
    [Error] of the given message ([None] for a reason that is no [Error]). *)
Inductive Answer : Type :=
| Ok
| NotOk (error : option jsstring)
| Throws (message : option jsstring).

(** The server, as [handleSave] meets it: what it answers to the POST of a
    signer and to the PATCH of the signing-order setting. *)
Record Server : Type := mkServer {
  postSigner : Signer -> Answer;
  patchDocument : bool -> Answer
}.

(** What [handleSave] does, in order. *)
Inductive Effect : Type :=
| SetSaving (saving : bool)
| Post (signer : Signer)
| Patch (signingOrder : bool)
| LogError
| ToastError (message : jsstring)
| ToastSuccess (message : jsstring)
| SignersUpdate
| Close.

Definition addFailure : jsstring := str "Failed to add signer".
Definition saveFailure : jsstring := str "Failed to save signers".
Definition saved : jsstring := str "Signers updated successfully".

(** The loop over the new signers: the requests sent, and what is thrown,
    if anything; the loop ends at the first response that is not [ok]. *)
Fixpoint postEach (server : Server) (newSigners : list Signer)
    : list Effect * option (option jsstring) :=
  match newSigners with
  | [] => ([], None)
  | signer :: rest =>
      match postSigner server signer with
      | Ok =>
          let '(effects, thrown) := postEach server rest in
          (Post signer :: effects, thrown)
      | NotOk error =>
          (* [throw new Error(error.error || 'Failed to add signer')] *)
          ([Post signer],
           Some (Some (if truthy error then default [] error else addFailure)))
      | Throws message => ([Post signer], Some message)
      end
  end.

(** The [catch] block of [handleSave]. *)
Definition catchError (thrown : option jsstring) : list Effect :=
  [LogError; ToastError (default saveFailure thrown)].

Definition handleSave `{CaseMapping} (server : Server) (signingOrder : bool)
    (signers : list Signer) : list Effect :=
  match validateSigners signers with
  | Some validationError => [ToastError validationError]
  | None =>
      if (length signers =? 0)%nat then [ToastError noSigner]
      else
        [SetSaving true]
        ++ (* Add new signers *)
           (let newSigners := List.filter (fun s => negb (truthy (id s))) signers in
            match postEach server newSigners with
            | (requests, Some thrown) => requests ++ catchError thrown
            | (requests, None) =>
                (* Update document signing order setting *)
                requests ++ [Patch signingOrder]
                ++ match patchDocument server signingOrder with
                   | Throws thrown => catchError thrown
                   | _ => [ToastSuccess saved; SignersUpdate; Close]
                   end
            end)
        ++ [SetSaving false]
  end.

(** The signers whose POST request was sent. *)
Definition posted (effects : list Effect) : list Signer :=
  flat_map (fun e => match e with Post signer => [signer] | _ => [] end) effects.

(** The message of the loop of [validateSigners] for a signer that does not
    pass it. *)
Definition loopMessage (signer : Signer) : jsstring :=
  if negb (truthy (Some (signerEmail signer)))
     || negb (truthy (Some (signerName signer)))
  then missingNameOrEmail
  else invalidEmail.

(** Two entries of the list with one address, compared in lower case. *)
Definition sameEmailTwice `{CaseMapping} (signers : list Signer) : Prop :=
  exists i j a b,
    i <> j /\ signers !! i = Some a /\ signers !! j = Some b
    /\ toLowerCase (signerEmail a) = toLowerCase (signerEmail b).

End SignerSetup.

(** ** A small host, to run the definitions

    An instance of the interfaces above on which the functions can be
    evaluated.  A document is recognised by its header and has one US Letter
    page per page object; it is written back as the bytes it was loaded
    from followed by a comment line per call and a closing line, so that a
    saved file is never the file that was loaded.  Images are recognised by
    their signatures, a text can be drawn when every character is in the
    WinAnsi set of the standard fonts, and [atob] is base64. *)

Module Sample.

Definition letter : PageSize := mkSize 612 792.

Definition base64Digit (c : N) : option N :=
  (if (65 <=? c) && (c <=? 90) then Some (c - 65)
   else if (97 <=? c) && (c <=? 122) then Some (c - 71)
   else if (48 <=? c) && (c <=? 57) then Some (c + 4)
   else if c =? 43 then Some 62
   else if c =? 47 then Some 63
   else None)%N.

Fixpoint base64Groups (fuel : nat) (s : jsstring) : option jsstring :=
  match fuel with
  | O => None
  | S fuel' =>
      match s with
      | [] => Some []
      | [a; b; 61; 61]%N =>
          match base64Digit a, base64Digit b with
          | Some a, Some b => Some [(a * 4 + b / 16) mod 256]%N
          | _, _ => None
          end
      | [a; b; c; 61]%N =>
          match base64Digit a, base64Digit b, base64Digit c with
          | Some a, Some b, Some c =>
              Some [(a * 4 + b / 16) mod 256; (b * 16 + c / 4) mod 256]%N
          | _, _, _ => None
          end
      | a :: b :: c :: d :: rest =>
          match base64Digit a, base64Digit b, base64Digit c, base64Digit d,
                base64Groups fuel' rest with
          | Some a, Some b, Some c, Some d, Some tail =>
              Some ([(a * 4 + b / 16) mod 256; (b * 16 + c / 4) mod 256;
                     (c * 64 + d) mod 256]%N ++ tail)
          | _, _, _, _, _ => None
          end
      | _ => None
      end
  end.

Definition base64 (s : jsstring) : option jsstring :=
  base64Groups (S (length s)) s.

(** The number of places at which [p] occurs in [s]. *)
Fixpoint occurrences (p s : jsstring) : nat :=
  match s with
  | [] => 0
  | _ :: s' => (if startsWith s p then 1 else 0) + occurrences p s'
  end.

(** Characters of the WinAnsi encoding, and the line breaks and tabs that
    [drawText] takes out before encoding. *)
Definition winAnsi (c : N) : bool :=
  ((0x20 <=? c)%N && (c <=? 0x7E)%N) || ((0xA0 <=? c)%N && (c <=? 0xFF)%N)
  || existsb (N.eqb c)
       [0x09; 0x0A; 0x0C; 0x0D;
        0x20AC; 0x201A; 0x0192; 0x201E; 0x2026; 0x2020; 0x2021; 0x02C6;
        0x2030; 0x0160; 0x2039; 0x0152; 0x017D; 0x2018; 0x2019; 0x201C;
        0x201D; 0x2022; 0x2013; 0x2014; 0x02DC; 0x2122; 0x0161; 0x203A;
        0x0153; 0x017E; 0x0178]%N.

Definition pngSignature : list N := [0x89; 0x50; 0x4E; 0x47; 0x0D; 0x0A; 0x1A; 0x0A]%N.

#[export] Instance lib : PdfLib := {|
  load := fun bytes =>
    if startsWith bytes (str "%PDF-")
    then Some (repeat letter (occurrences (str "/Type /Page ") bytes))
    else None;
  atob := base64;
  completes := fun c =>
    match c with
    | EmbedPng imageBytes => startsWith imageBytes pngSignature
    | EmbedJpg imageBytes => startsWith imageBytes [0xFF; 0xD8; 0xFF]%N
    | DrawText _ text _ _ _ _ _ _ => forallb winAnsi text
    | _ => true
    end;
  save := fun doc =>
    Some (source doc
          ++ flat_map (fun _ => str "% call" ++ [10%N]) (calls doc)
          ++ str "% saved" ++ [10%N])
|}.

Definition asciiLower (c : N) : N :=
  (if (65 <=? c) && (c <=? 90) then c + 32 else c)%N.

#[export] Instance asciiCase : CaseMapping := {|
  toLowerCase := List.map asciiLower
|}.

(** The lines of a text file, each ended by a line feed. *)
Definition lines (l : list string) : list N :=
  flat_map (fun s => str s ++ [10%N]) l.

(** A document of two empty US Letter pages. *)
Definition pdf : list N :=
  lines ["%PDF-1.4";
         "1 0 obj";
         "<< /Type /Catalog /Pages 2 0 R >>";
         "endobj";
         "2 0 obj";
         "<< /Type /Pages /Kids [3 0 R 4 0 R] /Count 2 >>";
         "endobj";
         "3 0 obj";
         "<< /Type /Page /Parent 2 0 R /MediaBox [0 0 612 792] >>";
         "endobj";
         "4 0 obj";
         "<< /Type /Page /Parent 2 0 R /MediaBox [0 0 612 792] >>";
         "endobj";
         "xref";
         "0 5";
         "0000000000 65535 f ";
         "0000000009 00000 n ";
         "0000000058 00000 n ";
         "0000000121 00000 n ";
         "0000000192 00000 n ";
         "trailer";
         "<< /Size 5 /Root 1 0 R >>";
         "startxref";
         "263";
         "%%EOF"]%string.


(** A data URL whose payload is not base64. *)
Definition brokenURL : jsstring := str "data:image/png;base64,!!!".

Definition field (ty : FieldType) (page : Z) (v : option jsstring)
    : SignatureFieldData :=
  {| id := str "f"; type := ty; pageNumber := page;
     x := 10; y := 80; width := 20; height := 8;
     required := true; signerId := None; value := v;
     signatureType := None |}.

End Sample.

(** ** Vocabulary for the runs of the embedder *)

(** The arrays of the grouping object are not empty and hold signatures of
    the list only, each under the key of its page number. *)
Definition groupedFrom (signatures : list SignatureFieldData)
    (acc : list (jsstring * list SignatureFieldData)) : Prop :=
  forall key sigs, In (key, sigs) acc ->
    sigs <> []
    /\ forall f, In f sigs -> In f signatures /\ pageKey f = key.

(** The page test of the outer loop, on the key: the entry is skipped. *)
Definition skips (loaded : list PageSize) (key : jsstring) : bool :=
  match Number.parseInt key with
  | Some n =>
      (Number.toDouble (n - 1) <? 0)
      || (Number.toDouble (n - 1) >=? Z.of_nat (length loaded))
  | None => false
  end.

(** What the loops do for one signature: the outer loop body on the entry
    of its key, with that signature alone in the array. *)
Definition stampAlone `{PdfLib} (loaded : list PageSize)
    (sig : SignatureFieldData) : Run unit :=
  stampPage loaded (pageKey sig, [sig]).

(** The inner loop for the signatures of one page of the document, in the
    order of the list; [pageIndex] is 0-based. *)
Definition stampsOnPage `{PdfLib} (loaded : list PageSize)
    (signatures : list SignatureFieldData) (pageIndex : nat) : Run unit :=
  match nth_error loaded pageIndex with
  | Some size =>
      forEach (stampField pageIndex size)
        (List.filter (fun sig => pageNumber sig =? Z.of_nat pageIndex + 1)
           signatures)
  | None => ret tt
  end.

(** The page a call draws on, if it draws. *)
Definition callPage (c : Call) : option nat :=
  match c with
  | DrawImage page _ _ _ _ _ _ => Some page
  | DrawText page _ _ _ _ _ _ _ => Some page
  | DrawRectangle page _ _ _ _ _ _ => Some page
  | _ => None
  end.

(** ** The signer's fields, in the words of the specification

    [fieldsForSigner(signerId) = fields where field.signerId == signerId OR
    field.signerId is empty] and [requiredOutstanding(signerId) =
    fieldsForSigner(signerId) where required AND value is empty]: what the
    guided signing flow is specified on, to compare
    [getNextRequiredField] with. *)

Module Specified.

Definition fieldsForSigner (wanted : jsstring)
    (fields : list SignatureFieldData) : list SignatureFieldData :=
  List.filter
    (fun field => bool_decide (signerId field = Some wanted)
                  || negb (truthy (signerId field)))
    fields.

Definition requiredOutstanding (wanted : jsstring)
    (fields : list SignatureFieldData) : list SignatureFieldData :=
  List.filter (fun field => required field && negb (truthy (value field)))
    (fieldsForSigner wanted fields).

End Specified.

(** ** More of the utilities *)

(** [validateEmail]: the same pattern as in the signer dialog. *)
Definition validateEmail (email : jsstring) : bool :=
  RegExp.test RegExp.emailRegex email.

(** What a pattern matches, as a relation: the specification of [test]. *)
Inductive regexMatches : RegExp.regex -> jsstring -> Prop :=
| MatchEps : regexMatches RegExp.Eps []
| MatchClass p c : p c = true -> regexMatches (RegExp.CharClass p) [c]
| MatchCat r s u v :
    regexMatches r u -> regexMatches s v -> regexMatches (RegExp.Cat r s) (u ++ v)
| MatchAltL r s u : regexMatches r u -> regexMatches (RegExp.Alt r s) u
| MatchAltR r s u : regexMatches s u -> regexMatches (RegExp.Alt r s) u
| MatchStarNil r : regexMatches (RegExp.Star r) []
| MatchStarCons r u v :
    regexMatches r u -> regexMatches (RegExp.Star r) v ->
    regexMatches (RegExp.Star r) (u ++ v).

(** A character allowed in each part of an address: [[^\s@]]. *)
Definition addressChar (c : N) : bool :=
  negb (isWhiteSpace c) && negb (c =? N_of_ascii "@")%N.

(** A non-empty run of allowed characters. *)
Definition addressPart (s : jsstring) : Prop :=
  s <> [] /\ forallb addressChar s = true.

(** [s.endsWith(p)] *)
Definition endsWith (s p : jsstring) : bool := startsWith (rev s) (rev p).

(** The argument of [validatePDFFile]: the three properties of a [File] it
    reads, and its result. *)
Module PdfFile.

Record File : Type := mkFile {
  name : jsstring;
  type : jsstring;
  size : Z
}.

Record Validation : Type := mkValidation {
  isValid : bool;
  error : option jsstring
}.

Definition notPdf : jsstring := str "File must be a PDF".
Definition tooLarge : jsstring := str "File size must be less than 50MB".
Definition noExtension : jsstring := str "File must have .pdf extension".

Definition validatePDFFile `{CaseMapping} (file : File) : Validation :=
  (* Check file type *)
  if negb (str_eqb (type file) (str "application/pdf"))
  then {| isValid := false; error := Some notPdf |}
  else
    (* Check file size (50MB limit) *)
    let maxSize := 50 * 1024 * 1024 in
    if size file >? maxSize
    then {| isValid := false; error := Some tooLarge |}
    (* Check file name *)
    else if negb (endsWith (toLowerCase (name file)) (str ".pdf"))
    then {| isValid := false; error := Some noExtension |}
    else {| isValid := true; error := None |}.

End PdfFile.

(** [getFieldTypeDisplayName], on the type as a string. *)
Definition getFieldTypeDisplayName (type : jsstring) : jsstring :=
  if str_eqb type (str "SIGNATURE") then str "Signature"
  else if str_eqb type (str "INITIALS") then str "Initials"
  else if str_eqb type (str "DATE") then str "Date"
  else if str_eqb type (str "TEXT") then str "Text Field"
  else if str_eqb type (str "CHECKBOX") then str "Checkbox"
  else type.

(** The name of a field type, as the strings of the source spell it. *)
Definition typeName (t : FieldType) : jsstring :=
  match t with
  | SIGNATURE => str "SIGNATURE"
  | INITIALS => str "INITIALS"
  | DATE => str "DATE"
  | TEXT => str "TEXT"
  | CHECKBOX => str "CHECKBOX"
  end.

(** ** Dropping a field on a page (the PDF viewers' [handleDrop]) *)

Module FieldDrop.

(** [Omit<SignatureFieldData, 'id'>] with the label, as [handleDrop] builds
    it. *)
Record NewField : Type := mkNewField {
  type : jsstring;
  pageNumber : Z;
  x : Q;
  y : Q;
  width : Q;
  height : Q;
  required : bool;
  label : jsstring
}.

(** The object literal [newField]; [x] and [y] are the pointer position in
    percent of the page, the two constants computed just before it. *)
Definition newField (draggedFieldType : jsstring) (page : Z) (px py : Q)
    : NewField :=
  {| type := draggedFieldType;
     pageNumber := page;
     x := Qmax 0 (Qmin (px - 5) 90);
     y := Qmax 0 (Qmin (py - 2) 95);
     width := if str_eqb draggedFieldType (str "SIGNATURE") then 20
              else if str_eqb draggedFieldType (str "DATE") then 15 else 10;
     height := if str_eqb draggedFieldType (str "SIGNATURE") then 8 else 5;
     required := true;
     label := if str_eqb draggedFieldType (str "SIGNATURE") then str "Signature"
              else if str_eqb draggedFieldType (str "INITIALS") then str "Initials"
              else if str_eqb draggedFieldType (str "DATE") then str "Date"
              else if str_eqb draggedFieldType (str "TEXT") then str "Text Field"
              else str "Checkbox" |}%Q.

(** [handleDrop] up to [onFieldAdd]: the field handed to it, [None] when the
    handler returns early. *)
Definition handleDrop (draggedFieldType : option jsstring)
    (isEditable hasOnFieldAdd hasPageElement : bool)
    (page : Z) (px py : Q) : option NewField :=
  match draggedFieldType with
  | Some t =>
      if negb (truthy (Some t)) || negb isEditable || negb hasOnFieldAdd
      then None
      else if negb hasPageElement then None
      else Some (newField t page px py)
  | None => None
  end.

(** The coordinates of the new field, as the validator receives them. *)
Definition coordinates (f : NewField) : PartialField :=
  {| p_x := Some (x f); p_y := Some (y f);
     p_width := Some (width f); p_height := Some (height f) |}.

End FieldDrop.

(** ** Editing the list of signers (signer-setup-modal) *)

Module Contact.

Record Contact : Type := mkContact {
  id : jsstring;
  firstName : jsstring;
  lastName : jsstring;
  email : jsstring
}.

End Contact.

Module SignerList.
Import SignerSetup.

Definition setOrder (order : Z) (signer : Signer) : Signer :=
  {| id := id signer; signerEmail := signerEmail signer;
     signerName := signerName signer; signerRole := signerRole signer;
     signingOrder := order; contactId := contactId signer;
     status := status signer |}.

(** [updated.forEach((signer, i) => { signer.signingOrder = i + 1 })] *)
Definition renumber (updated : list Signer) : list Signer :=
  imap (fun i signer => setOrder (Z.of_nat i + 1) signer) updated.

(** [addSigner(contact?)]: the new state. *)
Definition addSigner (contact : option Contact.Contact) (signers : list Signer)
    : list Signer :=
  let newSigner :=
    {| id := None;
       signerEmail := match contact with
                      | Some c => Contact.email c   (* [contact?.email || ''] *)
                      | None => []
                      end;
       signerName := match contact with
                     | Some c => Contact.firstName c ++ str " " ++ Contact.lastName c
                     | None => []
                     end;
       signerRole := Some (str "Customer");
       signingOrder := Z.of_nat (length signers) + 1;
       contactId := option_map Contact.id contact;
       status := None |} in
  signers ++ [newSigner].

(** [signers.some(s => s.contactId === contact.id)] *)
Definition alreadyAdded (contact : Contact.Contact) (signers : list Signer) : bool :=
  existsb (fun s => bool_decide (contactId s = Some (Contact.id contact))) signers.

(** The click on a contact of the search list:
    [!alreadyAdded && addSigner(contact)]. *)
Definition addFromContact (contact : Contact.Contact) (signers : list Signer)
    : list Signer :=
  if alreadyAdded contact signers then signers
  else addSigner (Some contact) signers.

(** [Partial<Signer>]: [None] for a key that is absent. *)
Record Updates : Type := mkUpdates {
  u_id : option (option jsstring);
  u_signerEmail : option jsstring;
  u_signerName : option jsstring;
  u_signerRole : option (option jsstring);
  u_signingOrder : option Z;
  u_contactId : option (option jsstring);
  u_status : option (option Status)
}.

(** [{ ...signer, ...updates }] *)
Definition spread (signer : Signer) (updates : Updates) : Signer :=
  {| id := default (id signer) (u_id updates);
     signerEmail := default (signerEmail signer) (u_signerEmail updates);
     signerName := default (signerName signer) (u_signerName updates);
     signerRole := default (signerRole signer) (u_signerRole updates);
     signingOrder := default (signingOrder signer) (u_signingOrder updates);
     contactId := default (contactId signer) (u_contactId updates);
     status := default (status signer) (u_status updates) |}.

(** [updateSigner(index, updates)] for an index of the list, the only ones
    the dialog passes; beyond the list ([None]) the array would receive a
    partial record. *)
Definition updateSigner (index : nat) (updates : Updates) (signers : list Signer)
    : option (list Signer) :=
  match signers !! index with
  | Some signer => Some (<[index := spread signer updates]> signers)
  | None => None
  end.

(** [removeSigner(index)] *)
Definition removeSigner (index : nat) (signers : list Signer) : list Signer :=
  let updated := delete index signers in
  (* Reorder remaining signers *)
  renumber updated.

(** [moveSignerUp(index)]: the new state; [None] when one of the two entries
    to swap does not exist and the renumbering fails on it. *)
Definition moveSignerUp (index : nat) (signers : list Signer)
    : option (list Signer) :=
  if (index =? 0)%nat then Some signers
  else
    match signers !! (index - 1)%nat, signers !! index with
    | Some above, Some moved =>
        let updated := <[(index - 1)%nat := moved]> (<[index := above]> signers) in
        (* Update signing order *)
        Some (renumber updated)
    | _, _ => None
    end.

(** [moveSignerDown(index)] *)
Definition moveSignerDown (index : nat) (signers : list Signer)
    : option (list Signer) :=
  if (Z.of_nat index =? Z.of_nat (length signers) - 1) then Some signers
  else
    match signers !! index, signers !! (index + 1)%nat with
    | Some moved, Some below =>
        let updated := <[index := below]> (<[(index + 1)%nat := moved]> signers) in
        (* Update signing order *)
        Some (renumber updated)
    | _, _ => None
    end.

(** The edits of the dialog. *)
Inductive Edit : Type :=
| Add (contact : option Contact.Contact)
| AddFromContact (contact : Contact.Contact)
| Update (index : nat) (updates : Updates)
| Remove (index : nat)
| MoveUp (index : nat)
| MoveDown (index : nat).

Definition apply (edit : Edit) (signers : list Signer) : option (list Signer) :=
  match edit with
  | Add contact => Some (addSigner contact signers)
  | AddFromContact contact => Some (addFromContact contact signers)
  | Update index updates => updateSigner index updates signers
  | Remove index => Some (removeSigner index signers)
  | MoveUp index => moveSignerUp index signers
  | MoveDown index => moveSignerDown index signers
  end.

(** The signing orders are 1, 2, ... in the order of the list. *)
Definition denseOrder (signers : list Signer) : Prop :=
  forall i signer, signers !! i = Some signer ->
    signingOrder signer = Z.of_nat i + 1.

(** A signer without its place in the order. *)
Definition person (signer : Signer) : Signer := setOrder 0 signer.

(** An edit of the text inputs: it sets no signing order. *)
Definition keepsOrder (edit : Edit) : Prop :=
  match edit with
  | Update _ updates => u_signingOrder updates = None
  | _ => True
  end.

End SignerList.

(** Three signers of the sample, in signing order. *)
Module SampleSigners.

Definition signer (email name : string) (order : Z) : SignerSetup.Signer :=
  SignerSetup.mkSigner None (str email) (str name) (Some (str "Customer"))
    order None None.

Definition amy := signer "amy@sun.co" "Amy" 1.
Definition bo := signer "bo@sun.co" "Bo" 2.
Definition cy := signer "cy@sun.co" "Cy" 3.

End SampleSigners.

(** ** Document metadata ([extractPDFMetadata]) *)







(** ** The public signing page (public-signing-view) *)

Module PublicSigning.

Record SignatureInfo : Type := mkSignatureInfo {
  signatureData : jsstring;
  signatureType : jsstring
}.

Record Field : Type := mkField {
  id : jsstring;
  type : FieldType;
  required : bool;
  signerId : option jsstring;
  signature : option SignatureInfo;
  value : option jsstring
}.

Record Session : Type := mkSession {
  signer_id : jsstring;           (* [session.signer.id] *)
  allFields : list Field
}.

(** [!field.signerId || field.signerId === session.signer.id] *)
Definition mine (session : Session) (field : Field) : bool :=
  negb (truthy (signerId field))
  || bool_decide (signerId field = Some (signer_id session)).

Definition getMyFields (session : option Session) : list Field :=
  match session with
  | None => []
  | Some s => List.filter (mine s) (allFields s)
  end.

Definition getRequiredFieldsForMe (session : option Session) : list Field :=
  List.filter
    (fun field => required field && negb (bool_decide (is_Some (signature field))))
    (getMyFields session).

(** What a click on a field leads to. *)
Inductive Click : Type :=
| AlreadySigned            (* the info toast *)
| OtherSigner              (* the error toast *)
| OpenSignaturePad
| SignField (fieldId data : jsstring)
| NoAction.

(** [handleFieldClick]; [currentDate] is today's date as text and [answer]
    what [prompt] returns. *)
Definition handleFieldClick (session : option Session) (currentDate : jsstring)
    (answer : option jsstring) (field : Field) : Click :=
  if bool_decide (is_Some (signature field)) then AlreadySigned
  else if truthy (signerId field)
          && negb (bool_decide (signerId field = option_map signer_id session))
  then OtherSigner
  else
    match type field with
    | SIGNATURE | INITIALS => OpenSignaturePad
    | DATE => SignField (id field) currentDate
    | TEXT => if truthy answer
              then SignField (id field) (default [] answer)
              else NoAction
    | CHECKBOX =>
        let isChecked := bool_decide (value field = Some (str "checked")) in
        SignField (id field) (if isChecked then [] else str "checked")
    end.

End PublicSigning.

(** A metadata host and a signing session to run the definitions. *)
Module SampleHost.


Definition shared : PublicSigning.Field :=
  PublicSigning.mkField (str "f1") SIGNATURE true None None None.

Definition forBo : PublicSigning.Field :=
  PublicSigning.mkField (str "f2") DATE true (Some (str "bo")) None None.

Definition amySession : PublicSigning.Session :=
  PublicSigning.mkSession (str "amy") [shared; forBo].

End SampleHost.

(** * Properties *)

(** ** Numbers *)

Lemma Qltb_lt (a b : Q) : Qltb a b = true <-> (a < b)%Q.
Proof.
  unfold Qltb. rewrite negb_true_iff, <- not_true_iff_false, Qle_bool_iff.
  split; [apply Qnot_le_lt | apply Qlt_not_le].
Qed.

Lemma Qltb_ge (a b : Q) : Qltb a b = false <-> (b <= a)%Q.
Proof.
  unfold Qltb. rewrite negb_false_iff. apply Qle_bool_iff.
Qed.

Lemma Qleb_le (a b : Q) : Qleb a b = true <-> (a <= b)%Q.
Proof. apply Qle_bool_iff. Qed.

Lemma Qleb_gt (a b : Q) : Qleb a b = false <-> (b < a)%Q.
Proof.
  unfold Qleb. rewrite <- not_true_iff_false, Qle_bool_iff.
  split; [apply Qnot_le_lt | apply Qlt_not_le].
Qed.

Lemma Qgtb_gt (a b : Q) : Qgtb a b = true <-> (b < a)%Q.
Proof. apply Qltb_lt. Qed.

Lemma Qgtb_le (a b : Q) : Qgtb a b = false <-> (a <= b)%Q.
Proof. apply Qltb_ge. Qed.

Lemma falsyNum_zero (q : Q) : falsyNum (Some q) = true <-> (q == 0)%Q.
Proof. apply Qeq_bool_iff. Qed.

Lemma falsyNum_nonzero (q : Q) : falsyNum (Some q) = false <-> ~ (q == 0)%Q.
Proof.
  rewrite <- not_true_iff_false. unfold falsyNum. now rewrite Qeq_bool_iff.
Qed.

(** ** The field validator *)

(** One test of the validator at a time: split on it, with its meaning. *)
Ltac split_test :=
  match goal with
  | |- (if ?c then _ else _) = true <-> _ =>
      let F := fresh "F" in
      match c with
      | context [falsyNum (Some ?q)] =>
          destruct (falsyNum (Some q)) eqn:F;
          [apply falsyNum_zero in F | apply falsyNum_nonzero in F]
      | context [Qltb ?a ?b] =>
          destruct (Qltb a b) eqn:F; [apply Qltb_lt in F | apply Qltb_ge in F]
      | context [Qleb ?a ?b] =>
          destruct (Qleb a b) eqn:F; [apply Qleb_le in F | apply Qleb_gt in F]
      | context [Qgtb ?a ?b] =>
          destruct (Qgtb a b) eqn:F; [apply Qgtb_gt in F | apply Qgtb_le in F]
      end
  end; rewrite ?orb_true_r; cbn [orb].

(** What the validator accepts, exactly: a box with strictly positive
    corner and size that stays on the page. *)
Lemma validateFieldCoordinates_true (f : SignatureFieldData) :
  validateFieldCoordinates (asPartial f) = true <->
  (0 < x f /\ 0 < y f /\ 0 < width f /\ 0 < height f
   /\ x f + width f <= 100 /\ y f + height f <= 100)%Q.
Proof.
  unfold validateFieldCoordinates, asPartial; cbn [p_x p_y p_width p_height].
  repeat (split_test;
          [split; [discriminate | intros (?&?&?&?&?&?); lra] |]).
  split; [intros _ | reflexivity].
  repeat split; lra.
Qed.

(** The rejecting half of the validator's contract. *)
Lemma validateFieldCoordinates_rejects (f : SignatureFieldData) :
  (x f < 0 \/ y f < 0 \/ 100 < x f + width f \/ 100 < y f + height f
   \/ width f <= 0 \/ height f <= 0)%Q ->
  validateFieldCoordinates (asPartial f) = false.
Proof.
  intros H. apply not_true_iff_false. rewrite validateFieldCoordinates_true.
  intros (?&?&?&?&?&?). lra.
Qed.

(** A missing coordinate is rejected. *)
Lemma validateFieldCoordinates_missing (p : PartialField) :
  p_x p = None \/ p_y p = None \/ p_width p = None \/ p_height p = None ->
  validateFieldCoordinates p = false.
Proof.
  unfold validateFieldCoordinates.
  intros [H | [H | [H | H]]]; rewrite H; cbn [falsyNum orb];
    rewrite ?orb_true_r; reflexivity.
Qed.

(** ** Strings *)

Lemma trimStart_nil (s : jsstring) :
  trimStart s = [] <-> forallb isWhiteSpace s = true.
Proof.
  induction s as [| c s IH]; simpl; [tauto |].
  destruct (isWhiteSpace c); simpl; [exact IH |].
  split; discriminate.
Qed.

Lemma forallb_trimStart (s : jsstring) :
  forallb isWhiteSpace (trimStart s) = true <-> forallb isWhiteSpace s = true.
Proof.
  induction s as [| c s IH]; simpl; [tauto |].
  destruct (isWhiteSpace c) eqn:E; simpl; [exact IH |].
  rewrite E. simpl. tauto.
Qed.

Lemma forallb_rev {A : Type} (p : A -> bool) (l : list A) :
  forallb p (rev l) = forallb p l.
Proof.
  induction l as [| a l IH]; simpl; [reflexivity |].
  rewrite forallb_app, IH. simpl. rewrite andb_true_r. apply andb_comm.
Qed.

(** [trim] leaves nothing exactly of the strings made of white space. *)
Lemma trim_nil (s : jsstring) :
  trim s = [] <-> forallb isWhiteSpace s = true.
Proof.
  unfold trim, trimEnd.
  rewrite <- forallb_trimStart, <- (forallb_rev _ (trimStart s)), <- trimStart_nil.
  split; intros H.
  - apply (f_equal (@rev N)) in H. now rewrite rev_involutive in H.
  - now rewrite H.
Qed.

(** ** Sorting with a comparator that is a total preorder *)

Section SortFacts.
Context {A : Type} (cmp : A -> A -> Q).

Local Abbreviation notAfter := (notAfter cmp).

Hypothesis notAfter_trans :
  forall a b c, notAfter a b -> notAfter b c -> notAfter a c.
Hypothesis notAfter_total : forall a b, notAfter a b \/ notAfter b a.

Lemma In_insertSorted (a b : A) (l : list A) :
  In b (insertSorted cmp a l) <-> b = a \/ In b l.
Proof using Type.
  induction l as [| c l IH]; simpl.
  - intuition congruence.
  - destruct (Qgtb (cmp a c) 0); simpl; rewrite ?IH; intuition congruence.
Qed.

Lemma In_sort (b : A) (l : list A) : In b (sort cmp l) <-> In b l.
Proof using Type.
  induction l as [| a l IH]; simpl; [tauto |].
  rewrite In_insertSorted, IH. intuition congruence.
Qed.

Lemma insertSorted_front (a : A) (l : list A) :
  Forall (notAfter a) l -> insertSorted cmp a l = a :: l.
Proof using Type.
  destruct l as [| b l]; simpl; [reflexivity |].
  intros H. inversion H as [| ? ? Hb _]; subst.
  unfold notAfter in Hb. now rewrite Hb.
Qed.

Lemma insertSorted_sorted (a : A) (l : list A) :
  StronglySorted notAfter l -> StronglySorted notAfter (insertSorted cmp a l).
Proof using notAfter_trans notAfter_total.
  induction 1 as [| b l Hs IH Hb]; simpl.
  - repeat constructor.
  - destruct (Qgtb (cmp a b) 0) eqn:E.
    + constructor; [exact IH |].
      apply List.Forall_forall. intros c Hc. apply In_insertSorted in Hc.
      destruct Hc as [-> | Hc].
      * destruct (notAfter_total b a) as [H | H]; [exact H |].
        unfold notAfter in H. congruence.
      * rewrite List.Forall_forall in Hb. now apply Hb.
    + constructor; [now constructor |].
      constructor; [exact E |].
      apply List.Forall_forall. intros c Hc. rewrite List.Forall_forall in Hb.
      apply notAfter_trans with b; [exact E | now apply Hb].
Qed.

Lemma sort_sorted (l : list A) : StronglySorted notAfter (sort cmp l).
Proof using notAfter_trans notAfter_total.
  induction l as [| a l IH]; simpl; [constructor |].
  now apply insertSorted_sorted.
Qed.

(** The first element of the sorted array is a least element. *)
Lemma sort_head_least (l : list A) :
  l <> [] ->
  exists m, head (sort cmp l) = Some m /\ In m l /\ forall b, In b l -> notAfter m b.
Proof using notAfter_trans notAfter_total.
  intros Hne. pose proof (sort_sorted l) as Hs.
  destruct (sort cmp l) as [| m rest] eqn:E.
  - destruct l as [| a l]; [congruence |].
    assert (In a (sort cmp (a :: l))) as Hin by (apply In_sort; now left).
    rewrite E in Hin. destruct Hin.
  - exists m. split; [reflexivity |]. split.
    + apply In_sort. rewrite E. now left.
    + intros b Hb. apply In_sort in Hb. rewrite E in Hb.
      inversion Hs as [| ? ? _ Hall]; subst.
      destruct Hb as [<- | Hb].
      * now destruct (notAfter_total m m).
      * rewrite List.Forall_forall in Hall. now apply Hall.
Qed.

(** Filtering commutes with sorting. *)
Lemma filter_insertSorted (p : A -> bool) (a : A) (l : list A) :
  StronglySorted notAfter l ->
  List.filter p (insertSorted cmp a l)
  = if p a then insertSorted cmp a (List.filter p l) else List.filter p l.
Proof using notAfter_trans.
  induction 1 as [| b l Hs IH Hb]; simpl.
  - now destruct (p a).
  - destruct (Qgtb (cmp a b) 0) eqn:E; simpl.
    + rewrite IH. destruct (p a), (p b); simpl; rewrite ?E; reflexivity.
    + destruct (p a) eqn:Pa, (p b) eqn:Pb; simpl; rewrite ?E; try reflexivity.
      symmetry. apply insertSorted_front.
      apply List.Forall_forall. intros c Hc. apply filter_In in Hc as [Hc _].
      rewrite List.Forall_forall in Hb.
      apply notAfter_trans with b; [exact E | now apply Hb].
Qed.

Lemma filter_sort (p : A -> bool) (l : list A) :
  List.filter p (sort cmp l) = sort cmp (List.filter p l).
Proof using notAfter_trans notAfter_total.
  induction l as [| a l IH]; simpl; [reflexivity |].
  rewrite filter_insertSorted by apply sort_sorted.
  rewrite IH. now destruct (p a).
Qed.
End SortFacts.

(** ** Signing progress *)

Lemma compareFields_notAfter (a b : SignatureFieldData) :
  notAfter compareFields a b <-> precedes a b.
Proof.
  unfold notAfter, compareFields, precedes. rewrite Qgtb_le.
  case_bool_decide as Hp.
  - change 0%Q with (inject_Z 0). rewrite <- Zle_Qle. lia.
  - assert (pageNumber a = pageNumber b) as -> by lia.
    split.
    + intros H. right. split; [reflexivity | lra].
    + intros [H | [_ H]]; [lia | lra].
Qed.

Lemma precedes_trans (a b c : SignatureFieldData) :
  precedes a b -> precedes b c -> precedes a c.
Proof.
  unfold precedes. intros [H1 | [H1 H1']] [H2 | [H2 H2']].
  - left; lia.
  - left; lia.
  - left; lia.
  - right. split; [lia | lra].
Qed.

Lemma precedes_total (a b : SignatureFieldData) : precedes a b \/ precedes b a.
Proof.
  unfold precedes.
  destruct (Z.lt_trichotomy (pageNumber a) (pageNumber b)) as [H | [H | H]];
    [now left; left | | now right; left].
  destruct (Qlt_le_dec (y b) (y a)) as [Hy | Hy].
  - right. right. split; [lia | lra].
  - left. right. split; [lia | lra].
Qed.

Lemma compareFields_trans (a b c : SignatureFieldData) :
  notAfter compareFields a b -> notAfter compareFields b c ->
  notAfter compareFields a c.
Proof. rewrite !compareFields_notAfter. apply precedes_trans. Qed.

Lemma compareFields_total (a b : SignatureFieldData) :
  notAfter compareFields a b \/ notAfter compareFields b a.
Proof. rewrite !compareFields_notAfter. apply precedes_total. Qed.

Lemma In_outstandingRequired fields wanted (f : SignatureFieldData) :
  In f (outstandingRequired fields wanted) <->
  In f fields /\ required f = true /\ forSigner wanted f = true
  /\ isUnfilled f = true.
Proof.
  unfold outstandingRequired. rewrite filter_In, !andb_true_iff. tauto.
Qed.

(** A value of white space only, the empty string included, counts as no
    value. *)
Lemma isUnfilled_whitespace (f : SignatureFieldData) (v : jsstring) :
  value f = Some v -> forallb isWhiteSpace v = true ->
  isUnfilled f = true /\ isFilled f = false.
Proof.
  intros Hv Hws. apply trim_nil in Hws.
  unfold isUnfilled, isFilled, str_eqb. rewrite Hv, Hws.
  rewrite bool_decide_eq_true_2 by reflexivity.
  simpl. now rewrite orb_true_r, andb_false_r.
Qed.

(** The two tests on the value are each other's negation. *)
Lemma isUnfilled_negb (f : SignatureFieldData) : isUnfilled f = negb (isFilled f).
Proof.
  unfold isUnfilled, isFilled. destruct (value f) as [v |]; [| reflexivity].
  now rewrite negb_andb, negb_involutive.
Qed.

(** With a signer given, the filter keeps the fields assigned to that signer
    and nothing else. *)
Lemma forSigner_given (wanted : jsstring) (f : SignatureFieldData) :
  wanted <> [] ->
  forSigner (Some wanted) f = true <-> signerId f = Some wanted.
Proof.
  intros Hne. unfold forSigner.
  destruct wanted as [| c w]; [congruence |]. simpl.
  apply bool_decide_eq_true.
Qed.

(** Without a signer, every field is in scope. *)
Lemma forSigner_absent (f : SignatureFieldData) : forSigner None f = true.
Proof. reflexivity. Qed.

(** An unassigned field is dropped when a signer is given. *)
Lemma areAllRequiredFieldsSigned_drops_unassigned fields1 fields2 f wanted :
  wanted <> [] -> signerId f = None ->
  areAllRequiredFieldsSigned (fields1 ++ f :: fields2) (Some wanted)
  = areAllRequiredFieldsSigned (fields1 ++ fields2) (Some wanted)
  /\ outstandingRequired (fields1 ++ f :: fields2) (Some wanted)
     = outstandingRequired (fields1 ++ fields2) (Some wanted).
Proof.
  intros Hne Hf.
  assert (forSigner (Some wanted) f = false) as Hout.
  { apply not_true_iff_false. rewrite forSigner_given by exact Hne. congruence. }
  unfold areAllRequiredFieldsSigned, outstandingRequired.
  rewrite !List.filter_app. simpl. rewrite Hout, !andb_false_r. simpl.
  rewrite <- !List.filter_app. split; reflexivity.
Qed.

(** The head of the sorted candidates is not after any candidate. *)
Lemma getNextRequiredField_least_for fields wanted f :
  In f (outstandingRequired fields wanted) ->
  exists g,
    getNextRequiredField fields wanted = Some g
    /\ precedes g f.
Proof.
  intros Hin. unfold getNextRequiredField.
  assert (outstandingRequired fields wanted <> []) as Hne
    by (intros E; rewrite E in Hin; destruct Hin).
  destruct (sort_head_least compareFields compareFields_trans compareFields_total
              (outstandingRequired fields wanted) Hne) as (m & Hm & _ & Hmin).
  exists m. split; [exact Hm |].
  apply compareFields_notAfter. now apply Hmin.
Qed.

(** C2, at the left edge of the page.  A field dropped at [x = 0] lies
    within [0,100] on both axes, has positive size and stays on the page, and
    [validateFieldCoordinates] returns [false] for it: its first line reads
    the number [0] as a missing coordinate. *)
Theorem validateFieldCoordinates_left_edge :
  let f := {| id := str "f"; type := SIGNATURE; pageNumber := 1;
              x := 0; y := 10; width := 20; height := 8;
              required := true; signerId := None; value := None;
              signatureType := None |} in
  (0 <= x f <= 100 /\ 0 <= y f <= 100
   /\ 0 < width f <= 100 /\ 0 < height f <= 100
   /\ x f + width f <= 100 /\ y f + height f <= 100)%Q
  /\ validateFieldCoordinates (asPartial f) = false.
Proof.
  cbn. split; [| reflexivity].
  repeat split; lra.
Qed.

(** C3, for a required field that no signer is assigned to and that has no
    value: asked about signer ["signer-1"], [areAllRequiredFieldsSigned]
    answers [true] and [getNextRequiredField] answers [null]; the field is
    not counted among that signer's fields. *)
Theorem unassigned_field_not_counted :
  let shared := Sample.field SIGNATURE 1 None in
  signerId shared = None /\ required shared = true /\ value shared = None
  /\ areAllRequiredFieldsSigned [shared] (Some (str "signer-1")) = true
  /\ getNextRequiredField [shared] (Some (str "signer-1")) = None.
Proof. repeat split. Qed.

(** C5, for a signer with a field of their own on page 2 and a required
    field without value that no signer is assigned to on page 1.  Both are
    outstanding required fields of the signer in the words of the
    specification, and the unassigned one is the lower in [(pageNumber, y)];
    asked about signer ["signer-1"], [getNextRequiredField] returns the
    field on page 2: its signer filter has dropped the unassigned one. *)
Theorem getNextRequiredField_skips_shared :
  let shared := Sample.field SIGNATURE 1 None in
  let own :=
    {| id := str "g"; type := TEXT; pageNumber := 2;
       x := 10; y := 10; width := 20; height := 5;
       required := true; signerId := Some (str "signer-1"); value := None;
       signatureType := None |} in
  Specified.requiredOutstanding (str "signer-1") [shared; own] = [shared; own]
  /\ precedes shared own /\ ~ precedes own shared
  /\ getNextRequiredField [shared; own] (Some (str "signer-1")) = Some own.
Proof.
  cbv zeta. split; [reflexivity |]. split; [| split].
  - left. simpl. lia.
  - unfold precedes. simpl. lia.
  - reflexivity.
Qed.

(** C10.  A required field in scope whose value is the empty string or
    white space only is unfilled: [areAllRequiredFieldsSigned] is [false],
    the field is among the candidates of [getNextRequiredField], and that
    function returns a candidate that is not after it. *)
Theorem whitespace_value_is_unfilled fields wanted f v :
  In f fields -> required f = true -> forSigner wanted f = true ->
  value f = Some v -> forallb isWhiteSpace v = true ->
  areAllRequiredFieldsSigned fields wanted = false
  /\ In f (outstandingRequired fields wanted)
  /\ exists g, getNextRequiredField fields wanted = Some g /\ precedes g f.
Proof.
  intros Hin Hreq Hfor Hv Hws.
  destruct (isUnfilled_whitespace f v Hv Hws) as [Hun Hfill].
  assert (In f (outstandingRequired fields wanted)) as Hcand
    by (apply In_outstandingRequired; tauto).
  split; [| split; [exact Hcand |]].
  - unfold areAllRequiredFieldsSigned. apply not_true_iff_false. intros Hall.
    rewrite forallb_forall in Hall. specialize (Hall f).
    rewrite Hfill in Hall.
    assert (false = true) by (apply Hall, filter_In; rewrite Hreq, Hfor; tauto).
    discriminate.
  - destruct (getNextRequiredField_least_for fields wanted f Hcand) as (g & Hg & Hle).
    now exists g.
Qed.

(** ** Lists *)

Lemma flat_map_map {A B C : Type} (f : A -> B) (g : B -> list C) (l : list A) :
  flat_map g (List.map f l) = flat_map (fun a => g (f a)) l.
Proof.
  induction l as [| a l IH]; simpl; [reflexivity | now rewrite IH].
Qed.

Lemma flat_map_ext_In {A B : Type} (f g : A -> list B) (l : list A) :
  (forall a, In a l -> f a = g a) -> flat_map f l = flat_map g l.
Proof.
  induction l as [| a l IH]; intros Hall; simpl; [reflexivity |].
  rewrite (Hall a) by now left. f_equal. apply IH. intros; apply Hall; now right.
Qed.

Lemma filter_all {A : Type} (p : A -> bool) (l : list A) :
  (forall a, In a l -> p a = true) -> List.filter p l = l.
Proof.
  induction l as [| a l IH]; intros Hall; simpl; [reflexivity |].
  rewrite (Hall a) by now left. f_equal. apply IH. intros; apply Hall; now right.
Qed.

Lemma filter_none {A : Type} (p : A -> bool) (l : list A) :
  (forall a, In a l -> p a = false) -> List.filter p l = [].
Proof.
  induction l as [| a l IH]; intros Hall; simpl; [reflexivity |].
  rewrite (Hall a) by now left. apply IH. intros; apply Hall; now right.
Qed.

Lemma filter_filter_implied {A : Type} (p q : A -> bool) (l : list A) :
  (forall a, p a = true -> q a = true) ->
  List.filter p (List.filter q l) = List.filter p l.
Proof.
  intros Himp. induction l as [| a l IH]; simpl; [reflexivity |].
  destruct (q a) eqn:Eq; simpl; rewrite IH; [reflexivity |].
  destruct (p a) eqn:Ep; [| reflexivity].
  apply Himp in Ep. congruence.
Qed.

Section SortMore.
Context {A : Type} (cmp : A -> A -> Q).

(** A list whose elements may all stay in front of each other is left as it
    is. *)
Lemma sort_unordered (l : list A) :
  (forall a b, In a l -> In b l -> notAfter cmp a b) -> sort cmp l = l.
Proof.
  induction l as [| a l IH]; intros Hall; simpl; [reflexivity |].
  rewrite IH by (intros; apply Hall; now right).
  apply insertSorted_front, List.Forall_forall.
  intros b Hb. apply Hall; [now left | now right].
Qed.
End SortMore.

(** ** Numbers as property keys *)

Module NumberFacts.
Import Number.

Lemma toDouble_safe (z : Z) : Z.abs z <= 2 ^ 53 -> toDouble z = z.
Proof.
  intros Hz. unfold toDouble.
  destruct (Z.leb_spec (Z.abs z) (2 ^ 53)); [reflexivity | lia].
Qed.

Lemma isDigit_digit (d : Z) : 0 <= d < 10 -> isDigit (digit d).
Proof. unfold isDigit, digit. lia. Qed.

Lemma digitValue_digit (d : Z) : 0 <= d < 10 -> digitValue 10 (digit d) = Some d.
Proof.
  intros Hd. unfold digitValue, digit.
  replace (Z.of_N (48 + Z.to_N d)) with (48 + d) by lia.
  destruct (Z.leb_spec 48 (48 + d)); [| lia].
  destruct (Z.leb_spec (48 + d) 57); [| lia].
  cbn [andb]. replace (48 + d - 48) with d by lia.
  destruct (Z.ltb_spec d 10); [reflexivity | lia].
Qed.

Lemma digitValue_isDigit (c : N) :
  isDigit c -> exists d, 0 <= d < 10 /\ c = digit d.
Proof.
  unfold isDigit, digit. intros Hc. exists (Z.of_N c - 48). lia.
Qed.

Lemma digitsOf_isDigit fuel n tail :
  0 <= n -> Forall isDigit tail -> Forall isDigit (digitsOf fuel n tail).
Proof.
  revert n tail. induction fuel as [| fuel IH]; intros n tail Hn Ht; simpl;
    [exact Ht |].
  assert (isDigit (digit (n mod 10))) as Hd
    by (apply isDigit_digit, Z.mod_pos_bound; lia).
  destruct (n <? 10).
  - now constructor.
  - apply IH; [apply Z.div_pos; lia | now constructor].
Qed.

Lemma digitsOf_not_nil fuel n tail : digitsOf (S fuel) n tail <> [].
Proof.
  revert n tail. induction fuel as [| fuel IH]; intros n tail; simpl.
  - destruct (n <? 10); discriminate.
  - destruct (n <? 10); [discriminate |]. apply (IH (n / 10)).
Qed.

Lemma digitsOf_S fuel n tail :
  digitsOf (S fuel) n tail
  = if n <? 10 then digit (n mod 10) :: tail
    else digitsOf fuel (n / 10) (digit (n mod 10) :: tail).
Proof. reflexivity. Qed.

Lemma scanDigits_digitsOf fuel n tail acc :
  0 <= n < 2 ^ Z.of_nat (S fuel) -> default 0 acc = 0 ->
  scanDigits 10 (digitsOf (S fuel) n tail) acc = scanDigits 10 tail (Some n).
Proof.
  revert n tail. induction fuel as [| fuel IH]; intros n tail Hn Hacc;
    rewrite digitsOf_S;
    assert (0 <= n mod 10 < 10) as Hd by (apply Z.mod_pos_bound; lia);
    destruct (Z.ltb_spec n 10) as [Hsmall | Hlarge].
  - cbn [scanDigits]. rewrite digitValue_digit by exact Hd.
    rewrite Hacc. rewrite Z.mod_small by lia. repeat f_equal; lia.
  - change (2 ^ Z.of_nat 1) with 2 in Hn. lia.
  - cbn [scanDigits]. rewrite digitValue_digit by exact Hd.
    rewrite Hacc. rewrite Z.mod_small by lia. repeat f_equal; lia.
  - rewrite IH.
    + cbn [scanDigits]. rewrite digitValue_digit by exact Hd.
      cbn [default]. repeat f_equal. symmetry. apply Z.div_mod. lia.
    + split; [apply Z.div_pos; lia |].
      apply Z.div_lt_upper_bound; [lia |].
      rewrite (Nat2Z.inj_succ (S fuel)), Z.pow_succ_r in Hn by lia. lia.
    + exact Hacc.
Qed.

Lemma numeral_bound (n : Z) : 0 <= n -> n < 2 ^ Z.of_nat (S (Z.to_nat (Z.log2 n))).
Proof.
  intros Hn. rewrite Nat2Z.inj_succ, Z2Nat.id by apply Z.log2_nonneg.
  destruct (Z.eq_dec n 0) as [-> | Hne]; [reflexivity |].
  apply Z.log2_spec. lia.
Qed.

Lemma scanDigits_numeral (n : Z) : 0 <= n -> scanDigits 10 (numeral n) None = Some n.
Proof.
  intros Hn. unfold numeral.
  rewrite scanDigits_digitsOf; [reflexivity | | reflexivity].
  split; [exact Hn | now apply numeral_bound].
Qed.

Lemma numeral_isDigit (n : Z) : 0 <= n -> Forall isDigit (numeral n).
Proof. intros Hn. apply digitsOf_isDigit; [exact Hn | constructor]. Qed.

Lemma numeral_not_nil (n : Z) : numeral n <> [].
Proof. apply digitsOf_not_nil. Qed.

Lemma isDigit_cases (c : N) (P : N -> Prop) :
  isDigit c ->
  P 48%N -> P 49%N -> P 50%N -> P 51%N -> P 52%N -> P 53%N -> P 54%N ->
  P 55%N -> P 56%N -> P 57%N -> P c.
Proof.
  intros [Hlo Hhi] H0 H1 H2 H3 H4 H5 H6 H7 H8 H9.
  assert (c = 48 \/ c = 49 \/ c = 50 \/ c = 51 \/ c = 52 \/ c = 53 \/ c = 54
          \/ c = 55 \/ c = 56 \/ c = 57)%N as Hc by lia.
  repeat destruct Hc as [-> | Hc]; try assumption. now subst.
Qed.

Lemma radixOf_digit (c : N) (rest : jsstring) :
  isDigit c -> noRadixMark rest -> radixOf (c :: rest) = (10, c :: rest).
Proof.
  intros Hc Hrest. destruct rest as [| c2 rest'].
  - now apply (isDigit_cases c (fun c => radixOf [c] = (10, [c]))).
  - destruct Hrest as [Hx HX].
    apply (isDigit_cases c
             (fun c => radixOf (c :: c2 :: rest') = (10, c :: c2 :: rest')));
      [exact Hc | | reflexivity ..].
    destruct c2 as [| q]; [reflexivity |].
    do 7 (destruct q as [q | q |]; try reflexivity); congruence.
Qed.

Lemma scanDigits_Some (radix : Z) (s : jsstring) (a : Z) :
  scanDigits radix s (Some a) <> None.
Proof.
  revert a. induction s as [| c s IH]; intros a; simpl; [discriminate |].
  destruct (digitValue radix c); [apply IH | discriminate].
Qed.

(** A string that starts with a digit is read from that digit on: no white
    space, sign or radix prefix is taken from it. *)
Lemma parseInt_leading_digit (c : N) (rest : jsstring) :
  isDigit c -> noRadixMark rest ->
  parseInt (c :: rest) = option_map toDouble (scanDigits 10 (c :: rest) None)
  /\ parseInt (45%N :: c :: rest)
     = option_map (fun v => toDouble (- v)) (scanDigits 10 (c :: rest) None)
  /\ scanDigits 10 (c :: rest) None <> None.
Proof.
  intros Hc Hrest.
  pose proof (radixOf_digit c rest Hc Hrest) as Hradix.
  assert (signOf (c :: rest) = (1, c :: rest)) as Hsign
    by now apply (isDigit_cases c (fun c => signOf (c :: rest) = (1, c :: rest))).
  assert (isWhiteSpace c = false) as Hws
    by now apply (isDigit_cases c (fun c => isWhiteSpace c = false)).
  unfold parseInt. cbn [trimStart]. rewrite Hws.
  change (isWhiteSpace 45) with false. cbv iota.
  rewrite Hsign. change (signOf (45%N :: c :: rest)) with (-1, c :: rest).
  cbv beta iota. rewrite Hradix. cbv beta iota.
  split; [| split].
  - destruct (scanDigits 10 (c :: rest) None) as [v |]; cbn [option_map];
      [| reflexivity].
    do 2 f_equal; lia.
  - destruct (scanDigits 10 (c :: rest) None) as [v |]; cbn [option_map];
      [| reflexivity].
    do 2 f_equal; lia.
  - cbn [scanDigits].
    destruct (digitValue_isDigit c Hc) as (d & Hd & ->).
    rewrite digitValue_digit by exact Hd. apply scanDigits_Some.
Qed.

Lemma parseInt_digits (s : jsstring) :
  s <> [] -> Forall isDigit s ->
  parseInt s = option_map toDouble (scanDigits 10 s None)
  /\ parseInt (45%N :: s)
     = option_map (fun v => toDouble (- v)) (scanDigits 10 s None).
Proof.
  intros Hne Hs. destruct s as [| c rest]; [congruence |].
  apply Forall_cons in Hs as [Hc Hrest].
  destruct (parseInt_leading_digit c rest Hc) as (H1 & H2 & _); [| tauto].
  destruct rest as [| c2 rest']; [exact I |].
  apply Forall_cons in Hrest as [[Hlo Hhi] _]. split; lia.
Qed.






Lemma parseInt_toString (n : Z) : isSafeInteger n -> parseInt (toString n) = Some n.
Proof.
  unfold isSafeInteger, toString. intros Hn.
  destruct (Z.ltb_spec (Z.abs n) (2 ^ 53)) as [_ | ?]; [| lia].
  destruct (parseInt_digits (numeral (Z.abs n)) (numeral_not_nil _)
              (numeral_isDigit _ (Z.abs_nonneg n))) as [Hpos Hneg].
  rewrite scanDigits_numeral in Hpos, Hneg by apply Z.abs_nonneg.
  cbn [option_map] in Hpos, Hneg.
  destruct (Z.ltb_spec n 0).
  - change (str "-" ++ ?s) with (45%N :: s). rewrite Hneg.
    rewrite toDouble_safe by lia. f_equal. lia.
  - cbn [app]. rewrite Hpos. rewrite toDouble_safe by lia. f_equal. lia.
Qed.

(** Distinct safe integers have distinct keys. *)
Lemma toString_inj (n m : Z) :
  isSafeInteger n -> isSafeInteger m -> toString n = toString m -> n = m.
Proof.
  intros Hn Hm E. apply parseInt_toString in Hn, Hm.
  rewrite E in Hn. congruence.
Qed.

(** The key of a safe integer is an array index exactly from 0 to
    2^32 - 2. *)
Lemma arrayIndex_toString (n : Z) :
  isSafeInteger n ->
  arrayIndex (toString n)
  = if (0 <=? n) && (n <? 2 ^ 32 - 1) then Some n else None.
Proof.
  unfold isSafeInteger, toString, arrayIndex. intros Hn.
  destruct (Z.ltb_spec (Z.abs n) (2 ^ 53)) as [_ | ?]; [| lia].
  destruct (Z.ltb_spec n 0) as [Hneg | Hpos].
  - destruct (Z.leb_spec 0 n); [lia |]. reflexivity.
  - destruct (Z.leb_spec 0 n); [| lia]. cbn [app andb].
    rewrite Z.abs_eq by exact Hpos.
    rewrite scanDigits_numeral by exact Hpos.
    now rewrite bool_decide_eq_true_2 by reflexivity.
Qed.

End NumberFacts.

(** ** Calls and exceptions *)

Section RunFacts.
Context `{PdfLib}.

Lemma bind_ret_l (k : Run unit) : ret tt >> k = k.
Proof. unfold bind, ret. simpl. now destruct k. Qed.

Lemma bind_ret_r (m : Run unit) : m >> ret tt = m.
Proof.
  unfold bind, ret. destruct m as [cs [[] |]]; simpl; [| reflexivity].
  now rewrite app_nil_r.
Qed.

Lemma bind_assoc (a b c : Run unit) : (a >> b) >> c = a >> (b >> c).
Proof.
  unfold bind. destruct a as [ca [[] |]], b as [cb [[] |]], c as [cc rc]; simpl;
    rewrite ?app_assoc; reflexivity.
Qed.

Lemma forEach_app {A : Type} (body : A -> Run unit) (l1 l2 : list A) :
  forEach body (l1 ++ l2) = forEach body l1 >> forEach body l2.
Proof.
  induction l1 as [| a l1 IH]; simpl.
  - now rewrite bind_ret_l.
  - now rewrite IH, bind_assoc.
Qed.

Lemma forEach_one {A : Type} (body : A -> Run unit) (a : A) :
  forEach body [a] = body a.
Proof. simpl. apply bind_ret_r. Qed.

Lemma forEach_flat_map {A B : Type} (body : B -> Run unit) (f : A -> list B)
    (l : list A) :
  forEach body (flat_map f l) = forEach (fun a => forEach body (f a)) l.
Proof.
  induction l as [| a l IH]; simpl; [reflexivity |].
  now rewrite forEach_app, IH.
Qed.

Lemma forEach_ext_In {A : Type} (f g : A -> Run unit) (l : list A) :
  (forall a, In a l -> f a = g a) -> forEach f l = forEach g l.
Proof.
  induction l as [| a l IH]; intros Hall; simpl; [reflexivity |].
  rewrite (Hall a) by now left.
  rewrite IH by (intros; apply Hall; now right). reflexivity.
Qed.

(** Iterations that do nothing can be left out. *)
Lemma forEach_skip {A : Type} (body : A -> Run unit) (p : A -> bool) (l : list A) :
  (forall a, In a l -> p a = false -> body a = ret tt) ->
  forEach body l = forEach body (List.filter p l).
Proof.
  induction l as [| a l IH]; intros Hskip; simpl; [reflexivity |].
  rewrite IH by (intros; apply Hskip; [now right | assumption]).
  destruct (p a) eqn:E; [reflexivity |].
  rewrite (Hskip a) by (now left || assumption). apply bind_ret_l.
Qed.

(** The loop ends normally exactly when every iteration does. *)
Lemma forEach_settles {A : Type} (body : A -> Run unit) (l : list A) :
  snd (forEach body l) = Some tt <-> forall a, In a l -> snd (body a) = Some tt.
Proof.
  induction l as [| a l IH]; simpl.
  - split; [intros _ a [] | reflexivity].
  - unfold bind at 1. destruct (body a) as [ca [[] |]] eqn:E; simpl.
    + rewrite IH. split.
      * intros Hall b [<- | Hb]; [now rewrite E | now apply Hall].
      * intros Hall b Hb. apply Hall. now right.
    + split; [discriminate |]. intros Hall.
      specialize (Hall a (or_introl eq_refl)). rewrite E in Hall. discriminate.
Qed.

(** Every call of a loop is a call of one of its iterations. *)
Lemma forEach_made_In {A : Type} (body : A -> Run unit) (l : list A) (c : Call) :
  In c (fst (forEach body l)) -> exists a, In a l /\ In c (fst (body a)).
Proof.
  induction l as [| a l IH]; simpl; [intros [] |].
  unfold bind at 1. destruct (body a) as [ca [[] |]] eqn:E; simpl.
  - intros Hc. apply in_app_or in Hc as [Hc | Hc].
    + exists a. rewrite E. split; [now left | exact Hc].
    + destruct (IH Hc) as (b & Hb & Hcb). exists b. split; [now right | exact Hcb].
  - intros Hc. exists a. rewrite E. split; [now left | exact Hc].
Qed.

(** When the loop ends normally, its calls are those of all its iterations. *)
Lemma forEach_made {A : Type} (body : A -> Run unit) (l : list A) :
  snd (forEach body l) = Some tt ->
  fst (forEach body l) = flat_map (fun a => fst (body a)) l.
Proof.
  induction l as [| a l IH]; simpl; [reflexivity |].
  unfold bind. destruct (body a) as [ca [[] |]]; simpl; [| discriminate].
  intros Hs. now rewrite IH.
Qed.

Lemma call_made (c c' : Call) : In c' (fst (call c)) -> c' = c.
Proof.
  unfold call. destruct (completes c); simpl; [| intros []].
  intros [<- | []]. reflexivity.
Qed.

Lemma call_settles (c : Call) : snd (call c) = Some tt <-> completes c = true.
Proof. unfold call. destruct (completes c); simpl; split; congruence. Qed.

Lemma bind_settles (a b : Run unit) :
  snd (a >> b) = Some tt <-> snd a = Some tt /\ snd b = Some tt.
Proof.
  unfold bind. destruct a as [ca [[] |]]; simpl; [tauto |].
  split; [discriminate | intros [? _]; discriminate].
Qed.

Lemma bind_made (a b : Run unit) (c : Call) :
  In c (fst (a >> b)) -> In c (fst a) \/ In c (fst b).
Proof.
  unfold bind. destruct a as [ca [[] |]]; simpl; [| tauto].
  apply in_app_or.
Qed.


End RunFacts.

(** ** The grouping object and its entries *)

Lemma compareBy_notAfter {A : Type} (index : A -> Z) (a b : A) :
  notAfter (compareBy index) a b <-> index a <= index b.
Proof.
  unfold notAfter, compareBy. rewrite Qgtb_le.
  change 0%Q with (inject_Z 0). rewrite <- Zle_Qle. lia.
Qed.

Lemma compareBy_trans {A : Type} (index : A -> Z) (a b c : A) :
  notAfter (compareBy index) a b -> notAfter (compareBy index) b c ->
  notAfter (compareBy index) a c.
Proof. rewrite !compareBy_notAfter. lia. Qed.

Lemma compareBy_total {A : Type} (index : A -> Z) (a b : A) :
  notAfter (compareBy index) a b \/ notAfter (compareBy index) b a.
Proof. rewrite !compareBy_notAfter. lia. Qed.

Lemma In_Object_entries {V : Type} (e : jsstring * V) (o : list (jsstring * V)) :
  In e (Object_entries o) <-> In e o.
Proof.
  unfold Object_entries. rewrite in_app_iff, In_sort, !filter_In.
  destruct (isArrayIndex (fst e)); simpl; intuition congruence.
Qed.

(** Keeping the entries whose key passes a test commutes with listing the
    entries. *)
Lemma filter_Object_entries {V : Type} (p : jsstring -> bool)
    (o : list (jsstring * V)) :
  List.filter (fun e => p (fst e)) (Object_entries o)
  = Object_entries (List.filter (fun e => p (fst e)) o).
Proof.
  unfold Object_entries. rewrite List.filter_app.
  rewrite (filter_sort (compareBy indexOf) (compareBy_trans _) (compareBy_total _)).
  f_equal; [f_equal |].
  - induction o as [| e o IH]; simpl; [reflexivity |].
    destruct (isArrayIndex (fst e)) eqn:Ei, (p (fst e)) eqn:Ep; simpl;
      rewrite ?Ei, ?Ep, IH; reflexivity.
  - induction o as [| e o IH]; simpl; [reflexivity |].
    destruct (isArrayIndex (fst e)) eqn:Ei, (p (fst e)) eqn:Ep; simpl;
      rewrite ?Ei, ?Ep, IH; reflexivity.
Qed.

Lemma str_eqb_eq (a b : jsstring) : str_eqb a b = true <-> a = b.
Proof. apply bool_decide_eq_true. Qed.

Lemma str_eqb_refl (a : jsstring) : str_eqb a a = true.
Proof. now apply str_eqb_eq. Qed.

Lemma filter_pushSignature (p : jsstring -> bool) acc sig :
  List.filter (fun e => p (fst e)) (pushSignature acc sig)
  = if p (pageKey sig)
    then pushSignature (List.filter (fun e => p (fst e)) acc) sig
    else List.filter (fun e => p (fst e)) acc.
Proof.
  induction acc as [| [key sigs] acc IH]; simpl.
  - now destruct (p (pageKey sig)).
  - destruct (str_eqb key (pageKey sig)) eqn:E; simpl.
    + apply str_eqb_eq in E. subst key.
      destruct (p (pageKey sig)); simpl; [| reflexivity].
      now rewrite str_eqb_refl.
    + rewrite IH. destruct (p key), (p (pageKey sig)); simpl;
        rewrite ?E; reflexivity.
Qed.

Lemma filter_fold_pushSignature (p : jsstring -> bool) signatures acc :
  List.filter (fun e => p (fst e)) (fold_left pushSignature signatures acc)
  = fold_left pushSignature
      (List.filter (fun sig => p (pageKey sig)) signatures)
      (List.filter (fun e => p (fst e)) acc).
Proof.
  revert acc. induction signatures as [| sig sigs IH]; intros acc; simpl;
    [reflexivity |].
  rewrite IH, filter_pushSignature.
  now destruct (p (pageKey sig)).
Qed.

(** Every signature of the list is in the array of its key. *)
Lemma pushSignature_keeps acc sig key sigs (f : SignatureFieldData) :
  In (key, sigs) acc -> In f sigs ->
  exists sigs', In (key, sigs') (pushSignature acc sig) /\ In f sigs'.
Proof.
  induction acc as [| [k ss] acc IH]; simpl; [tauto |].
  intros [E | Hin] Hf.
  - inversion E; subst. destruct (str_eqb key (pageKey sig)).
    + exists (sigs ++ [sig]). split; [now left | apply in_or_app; now left].
    + exists sigs. split; [now left | exact Hf].
  - destruct (str_eqb k (pageKey sig)).
    + exists sigs. split; [now right | exact Hf].
    + destruct (IH Hin Hf) as (sigs' & H1 & H2).
      exists sigs'. split; [now right | exact H2].
Qed.

Lemma pushSignature_adds acc sig :
  exists sigs, In (pageKey sig, sigs) (pushSignature acc sig) /\ In sig sigs.
Proof.
  induction acc as [| [k ss] acc IH]; simpl.
  - exists [sig]. split; now left.
  - destruct (str_eqb k (pageKey sig)) eqn:E.
    + apply str_eqb_eq in E. subst k.
      exists (ss ++ [sig]). split; [now left | apply in_or_app; right; now left].
    + destruct IH as (sigs & H1 & H2). exists sigs. split; [now right | exact H2].
Qed.

Lemma fold_pushSignature_complete signatures acc (f : SignatureFieldData) :
  In f signatures \/ (exists sigs, In (pageKey f, sigs) acc /\ In f sigs) ->
  exists sigs,
    In (pageKey f, sigs) (fold_left pushSignature signatures acc) /\ In f sigs.
Proof.
  revert acc. induction signatures as [| sig sigs IH]; intros acc; simpl.
  - intros [[] | Hacc]. exact Hacc.
  - intros [[-> | Hin] | (ss & H1 & H2)]; apply IH.
    + right. apply pushSignature_adds.
    + now left.
    + right. now apply pushSignature_keeps with ss.
Qed.

Lemma pushSignature_sound signatures acc sig :
  groupedFrom signatures acc -> In sig signatures ->
  groupedFrom signatures (pushSignature acc sig).
Proof.
  unfold groupedFrom. intros Hacc Hs.
  induction acc as [| [k ss] acc IH]; simpl; intros key sigs.
  - intros [E | []]. inversion E; subst. split; [discriminate |].
    intros f [<- | []]. tauto.
  - destruct (str_eqb k (pageKey sig)) eqn:Ek.
    + apply str_eqb_eq in Ek. intros [E | Hin].
      * inversion E; subst.
        destruct (Hacc (pageKey sig) ss (or_introl eq_refl)) as [_ Hss].
        split; [now destruct ss |].
        intros f Hf. apply in_app_or in Hf as [Hf | [<- | []]];
          [now apply Hss | tauto].
      * apply (Hacc key sigs). now right.
    + intros [E | Hin].
      * inversion E; subst. apply (Hacc key sigs). now left.
      * apply IH; [| exact Hin].
        intros key' sigs' Hin'. apply (Hacc key' sigs'). now right.
Qed.

Lemma signaturesByPage_sound signatures :
  groupedFrom signatures (signaturesByPage signatures).
Proof.
  unfold signaturesByPage.
  assert (forall todo acc,
            (forall sig, In sig todo -> In sig signatures) ->
            groupedFrom signatures acc ->
            groupedFrom signatures (fold_left pushSignature todo acc)) as Hgen.
  { induction todo as [| sig todo IH]; intros acc Hsub Hacc; simpl; [exact Hacc |].
    apply IH.
    - intros s Hs. apply Hsub. now right.
    - apply pushSignature_sound; [exact Hacc | apply Hsub; now left]. }
  apply Hgen; [tauto |]. intros key sigs [].
Qed.

Lemma signaturesByPage_complete signatures (f : SignatureFieldData) :
  In f signatures ->
  exists sigs, In (pageKey f, sigs) (signaturesByPage signatures) /\ In f sigs.
Proof.
  intros Hin. apply fold_pushSignature_complete. now left.
Qed.

(** ** The runs of the embedder *)

Section EmbedderRuns.
Context `{PdfLib}.

Lemma stampPage_skips loaded entry :
  skips loaded (fst entry) = true -> stampPage loaded entry = ret tt.
Proof.
  unfold skips, stampPage.
  destruct (Number.parseInt (fst entry)) as [n |]; [| discriminate].
  now intros ->.
Qed.

(** Only the signatures whose key passes the page test matter, and they
    are processed as if the others were not in the list. *)
Lemma embedRun_unskipped loaded signatures :
  embedRun loaded signatures
  = embedRun loaded
      (List.filter (fun sig => negb (skips loaded (pageKey sig))) signatures).
Proof.
  unfold embedRun.
  rewrite (forEach_skip (stampPage loaded)
             (fun e => negb (skips loaded (fst e)))).
  - rewrite (filter_Object_entries (fun key => negb (skips loaded key))).
    unfold signaturesByPage at 1.
    now rewrite (filter_fold_pushSignature (fun key => negb (skips loaded key))).
  - intros e _ He. apply stampPage_skips. now apply negb_false_iff.
Qed.

(** The outer loop body on an entry, by what it does for each signature of
    the array. *)
Lemma stampPage_entry loaded key sigs :
  sigs <> [] -> (forall f, In f sigs -> pageKey f = key) ->
  stampPage loaded (key, sigs) = forEach (stampAlone loaded) sigs.
Proof.
  intros Hne Hkey. unfold stampAlone, stampPage. cbn [fst snd].
  destruct (Number.parseInt key) as [n |] eqn:En.
  - destruct ((Number.toDouble (n - 1) <? 0)
              || (Number.toDouble (n - 1) >=? Z.of_nat (length loaded))) eqn:Er.
    + symmetry. clear Hne.
      induction sigs as [| f sigs IH]; simpl; [reflexivity |].
      rewrite (Hkey f) by now left. rewrite En, Er, bind_ret_l.
      apply IH. intros; apply Hkey; now right.
    + destruct (nth_error loaded (Z.to_nat (Number.toDouble (n - 1))))
        as [size |] eqn:Es.
      * apply forEach_ext_In. intros f Hf. rewrite (Hkey f Hf), En, Er, Es.
        symmetry. apply forEach_one.
      * destruct sigs as [| f sigs]; [congruence |]. simpl.
        rewrite (Hkey f) by now left. now rewrite En, Er, Es.
  - destruct sigs as [| f sigs]; [congruence |]. simpl.
    rewrite (Hkey f) by now left. now rewrite En.
Qed.

Lemma embedRun_entries loaded signatures :
  embedRun loaded signatures
  = forEach (fun e => forEach (stampAlone loaded) (snd e))
      (Object_entries (signaturesByPage signatures)).
Proof.
  unfold embedRun. apply forEach_ext_In. intros [key sigs] He.
  apply (proj1 (In_Object_entries _ _)) in He.
  destruct (signaturesByPage_sound signatures key sigs He) as [Hne Hsigs].
  apply stampPage_entry; [exact Hne |]. intros f Hf. now apply Hsigs.
Qed.

(** The loops end normally exactly when they do for each signature. *)
Lemma embedRun_settles loaded signatures :
  snd (embedRun loaded signatures) = Some tt
  <-> forall f, In f signatures -> snd (stampAlone loaded f) = Some tt.
Proof.
  rewrite embedRun_entries, forEach_settles. split.
  - intros Hall f Hf.
    destruct (signaturesByPage_complete signatures f Hf) as (sigs & He & Hin).
    apply (proj2 (In_Object_entries _ _)) in He.
    specialize (Hall _ He). cbn [snd] in Hall.
    rewrite forEach_settles in Hall. now apply Hall.
  - intros Hall [key sigs] He. cbn [snd]. rewrite forEach_settles.
    intros f Hf. apply Hall.
    apply (proj1 (In_Object_entries _ _)) in He.
    now apply (signaturesByPage_sound signatures key sigs He).
Qed.

(** Every call of a run is made for a signature of the list. *)
Lemma In_embedRun loaded signatures (c : Call) :
  In c (fst (embedRun loaded signatures)) ->
  exists f, In f signatures /\ In c (fst (stampAlone loaded f)).
Proof.
  rewrite embedRun_entries. intros Hc.
  apply forEach_made_In in Hc as ([key sigs] & He & Hc). cbn [snd] in Hc.
  apply forEach_made_In in Hc as (f & Hf & Hc).
  exists f. split; [| exact Hc].
  apply (proj1 (In_Object_entries _ _)) in He.
  now apply (signaturesByPage_sound signatures key sigs He).
Qed.

(** When the loops end normally, every call for every signature is made. *)
Lemma In_embedRun_settled loaded signatures f (c : Call) :
  snd (embedRun loaded signatures) = Some tt ->
  In f signatures -> In c (fst (stampAlone loaded f)) ->
  In c (fst (embedRun loaded signatures)).
Proof.
  intros Hs Hf Hc. rewrite embedRun_entries in *.
  rewrite (forEach_made _ _ Hs). apply in_flat_map.
  destruct (signaturesByPage_complete signatures f Hf) as (sigs & He & Hin).
  apply (proj2 (In_Object_entries _ _)) in He.
  exists (pageKey f, sigs). split; [exact He |]. cbn [snd].
  rewrite forEach_settles in Hs. specialize (Hs _ He). cbn [snd] in Hs.
  rewrite (forEach_made _ _ Hs). apply in_flat_map. now exists f.
Qed.

(** A signature on a page of the document is stamped on that page. *)
Lemma stampAlone_on_page loaded f size :
  Number.isSafeInteger (pageNumber f) -> 1 <= pageNumber f ->
  nth_error loaded (Z.to_nat (pageNumber f - 1)) = Some size ->
  stampAlone loaded f = stampField (Z.to_nat (pageNumber f - 1)) size f.
Proof.
  intros Hsafe Hlo Hn. unfold stampAlone, stampPage, pageKey. cbn [fst snd].
  rewrite (NumberFacts.parseInt_toString _ Hsafe).
  unfold Number.isSafeInteger in Hsafe.
  rewrite NumberFacts.toDouble_safe by lia.
  assert (Z.to_nat (pageNumber f - 1) < length loaded)%nat as Hlen
    by (apply nth_error_Some; congruence).
  destruct (Z.ltb_spec (pageNumber f - 1) 0); [lia |].
  rewrite Z.geb_leb.
  destruct (Z.leb_spec (Z.of_nat (length loaded)) (pageNumber f - 1)); [lia |].
  cbn [orb]. rewrite Hn. apply forEach_one.
Qed.

(** A signature whose page number names no page is skipped. *)
Lemma skips_out_of_range loaded f :
  Number.isSafeInteger (pageNumber f) ->
  skips loaded (pageKey f)
  = negb ((1 <=? pageNumber f) && (pageNumber f <=? Z.of_nat (length loaded))).
Proof.
  intros Hsafe. unfold skips, pageKey.
  rewrite (NumberFacts.parseInt_toString _ Hsafe).
  unfold Number.isSafeInteger in Hsafe.
  rewrite NumberFacts.toDouble_safe by lia.
  rewrite Z.geb_leb.
  destruct (Z.ltb_spec (pageNumber f - 1) 0),
    (Z.leb_spec (Z.of_nat (length loaded)) (pageNumber f - 1)),
    (Z.leb_spec 1 (pageNumber f)),
    (Z.leb_spec (pageNumber f) (Z.of_nat (length loaded)));
    try reflexivity; lia.
Qed.

End EmbedderRuns.

(** ** The embedder: one signature *)

Section StampFacts.
Context `{PdfLib}.

(** A signature without a value causes no call. *)
Lemma stampField_no_value pageNum size f :
  truthy (value f) = false -> stampField pageNum size f = ret tt.
Proof.
  unfold stampField. destruct (value f) as [[| c v] |]; simpl;
    [reflexivity | discriminate | reflexivity].
Qed.

(** Two calls in a row that both complete. *)
Lemma two_calls (a b : Call) :
  snd (call a >> call b) = Some tt -> fst (call a >> call b) = [a; b].
Proof.
  rewrite bind_settles, !call_settles. intros [Ha Hb].
  unfold bind, call. now rewrite Ha, Hb.
Qed.


(** The text value. *)
Lemma stampField_text pageNum size f v :
  type f = TEXT \/ type f = DATE ->
  value f = Some v -> v <> [] ->
  let b := absoluteBox f size in
  let fontSize := Number.min (absHeight b * 0.6)%float 12%float in
  stampField pageNum size f
  = call (EmbedFont Helvetica) >>
    call (DrawText pageNum v
            (absX b) (absY b + absHeight b / 2 - fontSize / 2)%float
            fontSize Helvetica black (Some (absWidth b))).
Proof.
  intros Hty Hv Hne. unfold stampField. rewrite Hv.
  destruct v as [| ch v]; [congruence |].
  destruct Hty as [-> | ->]; reflexivity.
Qed.


(** A signature value that is not an image data URL causes no call. *)
Lemma stampField_not_data_url pageNum size f v :
  type f = SIGNATURE \/ type f = INITIALS ->
  value f = Some v -> startsWith v (str "data:image/") = false ->
  stampField pageNum size f = ret tt.
Proof.
  intros Hty Hv Hs. unfold stampField. rewrite Hv.
  destruct v as [| c v]; [reflexivity |].
  destruct Hty as [-> | ->]; now rewrite Hs.
Qed.

(** The outcome of a run whose loops ended normally. *)
Lemma embedSignaturesInPDF_Resolved pdfBytes loaded signatures out :
  load pdfBytes = Some loaded ->
  embedSignaturesInPDF pdfBytes signatures = Resolved out <->
  snd (embedRun loaded signatures) = Some tt
  /\ save (mkDoc pdfBytes loaded (fst (embedRun loaded signatures))) = Some out.
Proof.
  intros Hload. unfold embedSignaturesInPDF, finish. rewrite Hload.
  destruct (snd (embedRun loaded signatures)) as [[] |].
  - destruct (save _) as [bytes |]; split.
    + intros [= ->]. tauto.
    + intros [_ [= ->]]. reflexivity.
    + discriminate.
    + intros [_ ?]. discriminate.
  - split; [discriminate | intros [? _]; discriminate].
Qed.

End StampFacts.

Section EmbedderProperties.
Context `{PdfLib}.






(** C6, as the code has it.  A SIGNATURE or INITIALS field on a page of
    the document whose value is an image data URL that does not decode (the
    [try] block throws) does not abort the run when its placeholder can be
    drawn and no other signature throws: whatever [save] returns is the
    result, the bold placeholder ["[SIGNATURE]"] is drawn at size 12 at the
    left of the field's box and at half its height, and every call for
    every other signature of the list is made. *)
Theorem corrupt_image_placeholder pdfBytes loaded before f after v size :
  load pdfBytes = Some loaded ->
  type f = SIGNATURE \/ type f = INITIALS ->
  value f = Some v -> startsWith v (str "data:image/") = true ->
  Number.isSafeInteger (pageNumber f) -> 1 <= pageNumber f ->
  nth_error loaded (Z.to_nat (pageNumber f - 1)) = Some size ->
  let p := Z.to_nat (pageNumber f - 1) in
  let b := absoluteBox f size in
  threw (embedImage p v b) = true ->
  threw (placeholder p b) = false ->
  (forall g, In g (before ++ after) -> threw (stampAlone loaded g) = false) ->
  let made := fst (embedRun loaded (before ++ f :: after)) in
  (forall out,
     save (mkDoc pdfBytes loaded made) = Some out ->
     embedSignaturesInPDF pdfBytes (before ++ f :: after) = Resolved out)
  /\ In (DrawText p (str "[SIGNATURE]")
           (absX b) (absY b + absHeight b / 2)%float 12%float
           HelveticaBold black None) made
  /\ forall g c,
       In g (before ++ after) -> In c (fst (stampAlone loaded g)) -> In c made.
Proof.
  intros Hload Hty Hv Hstart Hsafe Hlo Hn p b Himage Hplace Hothers made.
  assert (forall r : Run unit, threw r = false -> snd r = Some tt) as Hsettled.
  { intros [cs [[] |]]; [reflexivity | discriminate]. }
  assert (stampAlone loaded f
          = (fst (embedImage p v b) ++ fst (placeholder p b), Some tt)) as Hf.
  { rewrite (stampAlone_on_page loaded f size Hsafe Hlo Hn).
    unfold stampField. rewrite Hv.
    destruct v as [| ch v]; [discriminate |].
    fold p b. unfold threw in Himage.
    destruct Hty as [-> | ->]; rewrite Hstart; unfold tryCatch;
      destruct (snd (embedImage p (ch :: v) b)); try discriminate;
      now rewrite (Hsettled _ Hplace). }
  assert (snd (embedRun loaded (before ++ f :: after)) = Some tt) as Hs.
  { apply embedRun_settles. intros g Hg.
    apply in_app_or in Hg as [Hg | [<- | Hg]].
    - apply Hsettled, Hothers, in_or_app. now left.
    - now rewrite Hf.
    - apply Hsettled, Hothers, in_or_app. now right. }
  split; [| split].
  - intros out Hsave.
    apply (embedSignaturesInPDF_Resolved _ _ _ _ Hload). now split.
  - apply (In_embedRun_settled loaded _ f _ Hs);
      [apply in_or_app; right; now left |].
    rewrite Hf. cbn [fst]. apply in_or_app. right.
    apply Hsettled in Hplace. unfold placeholder in *.
    rewrite (two_calls _ _ Hplace). right. now left.
  - intros g c Hg Hc. apply (In_embedRun_settled loaded _ g _ Hs); [| exact Hc].
    apply in_app_or in Hg. apply in_or_app.
    destruct Hg as [Hg | Hg]; [now left | right; now right].
Qed.

(** C7.  When the input bytes do not load as a PDF document, the run is
    rejected with the embedder's error whatever the signatures are: no
    bytes are produced. *)
Theorem unparseable_document_rejected pdfBytes signatures :
  load pdfBytes = None ->
  embedSignaturesInPDF pdfBytes signatures = Rejected embedFailure
  /\ forall bytes, embedSignaturesInPDF pdfBytes signatures <> Resolved bytes.
Proof.
  intros Hload. unfold embedSignaturesInPDF. rewrite Hload.
  split; [reflexivity | discriminate].
Qed.


End EmbedderProperties.

(** ** Signer validation *)

(** A set built from a list has the size of the list exactly when the list
    has no duplicate. *)
Lemma size_list_to_set_le (l : list jsstring) :
  (size (list_to_set l : gset jsstring) <= length l)%nat.
Proof.
  induction l as [| a l IH].
  - rewrite list_to_set_nil, size_empty. reflexivity.
  - rewrite list_to_set_cons. cbn [length].
    rewrite size_union_alt, size_singleton.
    pose proof (subseteq_size (list_to_set l ∖ {[a]}) (list_to_set l : gset jsstring)) as Hsub.
    assert (size (list_to_set l ∖ {[a]} : gset jsstring) <= size (list_to_set l : gset jsstring))%nat
      by (apply Hsub; intros z Hz; apply elem_of_difference in Hz; tauto).
    lia.
Qed.

Lemma size_list_to_set_NoDup (l : list jsstring) :
  size (list_to_set l : gset jsstring) = length l <-> NoDup l.
Proof.
  split; [| apply size_list_to_set].
  induction l as [| a l IH]; intros Hsize; [constructor |].
  rewrite list_to_set_cons in Hsize. cbn [length] in Hsize.
  pose proof (size_list_to_set_le l) as Hle.
  destruct (decide (a ∈ l)) as [Hin | Hnin].
  - assert ({[a]} ∪ list_to_set l = (list_to_set l : gset jsstring)) as E.
    { apply subseteq_union_1_L, singleton_subseteq_l, elem_of_list_to_set, Hin. }
    rewrite E in Hsize. lia.
  - rewrite size_union in Hsize
      by (apply disjoint_singleton_l; now rewrite elem_of_list_to_set).
    rewrite size_singleton in Hsize.
    apply NoDup_cons. split; [exact Hnin | apply IH; lia].
Qed.

Section SignerValidation.
Context `{CaseMapping}.
Import SignerSetup.

Lemma checkEachSigner_None signers :
  checkEachSigner signers = None <-> forallb wellFormed signers = true.
Proof.
  induction signers as [| s signers IH]; cbn [checkEachSigner forallb];
    [tauto |].
  unfold wellFormed at 1.
  destruct (truthy (Some (signerEmail s))); cbn [negb orb andb];
    [| split; discriminate].
  destruct (truthy (Some (signerName s))); cbn [negb orb andb];
    [| split; discriminate].
  destruct (RegExp.test RegExp.emailRegex (signerEmail s)); cbn [negb orb andb];
    [exact IH | split; discriminate].
Qed.

(** The loop reports one of its two messages, never the duplicate one. *)
Lemma checkEachSigner_Some signers message :
  checkEachSigner signers = Some message ->
  message = missingNameOrEmail \/ message = invalidEmail.
Proof.
  induction signers as [| s signers IH]; cbn [checkEachSigner]; [discriminate |].
  destruct (negb (truthy (Some (signerEmail s))) || negb (truthy (Some (signerName s))));
    [intros E; inversion E; now left |].
  destruct (negb (RegExp.test RegExp.emailRegex (signerEmail s)));
    [intros E; inversion E; now right | exact IH].
Qed.

(** For well-formed signers the result is decided by the duplicates among
    the lower-cased addresses. *)
Lemma validateSigners_wellFormed signers :
  forallb wellFormed signers = true ->
  (NoDup (List.map (fun s => toLowerCase (signerEmail s)) signers) ->
   validateSigners signers = None)
  /\ (~ NoDup (List.map (fun s => toLowerCase (signerEmail s)) signers) ->
      validateSigners signers = Some duplicateEmail).
Proof.
  intros Hwf. apply checkEachSigner_None in Hwf.
  unfold validateSigners. rewrite Hwf.
  split; intros Hnd.
  - apply size_list_to_set_NoDup in Hnd.
    rewrite bool_decide_eq_false_2; [reflexivity |]. intros Hne. congruence.
  - rewrite bool_decide_eq_true_2; [reflexivity |].
    intros Heq. apply Hnd. now apply size_list_to_set_NoDup.
Qed.

Lemma sameEmailTwice_not_NoDup signers :
  sameEmailTwice signers ->
  ~ NoDup (List.map (fun s => toLowerCase (signerEmail s)) signers).
Proof.
  intros (i & j & a & b & Hij & Hi & Hj & Heq) Hnd.
  apply Hij. rewrite NoDup_alt in Hnd.
  apply (Hnd i j (toLowerCase (signerEmail a))).
  - change (List.map ?f ?l) with (f <$> l). now rewrite list_lookup_fmap, Hi.
  - change (List.map ?f ?l) with (f <$> l). now rewrite list_lookup_fmap, Hj, Heq.
Qed.

(** The loop stops at the first signer that does not pass it, with the
    message for that signer. *)
Lemma checkEachSigner_first good bad rest :
  forallb wellFormed good = true -> wellFormed bad = false ->
  checkEachSigner (good ++ bad :: rest) = Some (loopMessage bad).
Proof.
  intros Hgood Hbad. induction good as [| s good IH].
  - cbn [app checkEachSigner]. unfold loopMessage. unfold wellFormed in Hbad.
    destruct (truthy (Some (signerEmail bad))); cbn [negb orb andb] in *;
      [| reflexivity].
    destruct (truthy (Some (signerName bad))); cbn [negb orb andb] in *;
      [| reflexivity].
    now rewrite Hbad.
  - cbn [forallb] in Hgood. apply andb_true_iff in Hgood as [Hs Hgood].
    cbn [app checkEachSigner]. unfold wellFormed in Hs.
    apply andb_true_iff in Hs as [Hs Htest].
    apply andb_true_iff in Hs as [Hemail Hname].
    rewrite Hemail, Hname, Htest. cbn [negb orb]. now apply IH.
Qed.

(** C8, as the code has it.  When two signers of the list have the same
    address up to letter case, validation fails and [handleSave] shows the
    error and does nothing else: no request is sent.  The error is the
    duplicate-address one when every signer has a name and a valid address;
    otherwise it is the message of the loop for the first signer that has
    not.  When every signer is well-formed and the addresses are pairwise
    distinct up to letter case, validation passes. *)
Theorem validateSigners_duplicates signers :
  (sameEmailTwice signers ->
   (forallb wellFormed signers = true ->
    validateSigners signers = Some duplicateEmail)
   /\ (forall good bad rest,
         signers = good ++ bad :: rest ->
         forallb wellFormed good = true -> wellFormed bad = false ->
         validateSigners signers = Some (loopMessage bad))
   /\ exists message,
        validateSigners signers = Some message
        /\ forall server signingOrder,
             handleSave server signingOrder signers = [ToastError message])
  /\ (forallb wellFormed signers = true ->
      NoDup (List.map (fun s => toLowerCase (signerEmail s)) signers) ->
      validateSigners signers = None).
Proof.
  split.
  - intros Hdup. apply sameEmailTwice_not_NoDup in Hdup.
    assert (forallb wellFormed signers = true ->
            validateSigners signers = Some duplicateEmail) as Hall.
    { intros Hwf. now apply (validateSigners_wellFormed signers Hwf). }
    split; [exact Hall |]. split.
    + intros good bad rest -> Hgood Hbad. unfold validateSigners.
      now rewrite (checkEachSigner_first good bad rest Hgood Hbad).
    + assert (exists message, validateSigners signers = Some message)
        as (message & Hm).
      { destruct (forallb wellFormed signers) eqn:Hwf; [eauto |].
        unfold validateSigners.
        destruct (checkEachSigner signers) as [message |] eqn:Hc; [eauto |].
        apply checkEachSigner_None in Hc. congruence. }
      exists message. split; [exact Hm |].
      intros server signingOrder. unfold handleSave. now rewrite Hm.
  - intros Hwf Hnd. now apply (validateSigners_wellFormed signers Hwf).
Qed.
End SignerValidation.

(** ** Instances on the sample host *)





(** C6 refuted as stated: a SIGNATURE field whose stored value is a plain
    name, which does not decode as an image, gets no placeholder; no call
    at all is made for it. *)
Lemma plain_text_signature_gets_no_placeholder :
  let f := Sample.field SIGNATURE 1 (Some (str "Jane Doe")) in
  @dataURLToBytes Sample.lib (str "Jane Doe") = None
  /\ @embedRun Sample.lib [Sample.letter; Sample.letter] [f] = ([], Some tt)
  /\ @embedSignaturesInPDF Sample.lib Sample.pdf [f]
     = @embedSignaturesInPDF Sample.lib Sample.pdf [].
Proof. repeat split. Qed.

(** A text field, initials with a broken payload, a checked box: the
    placeholder is drawn on page index 1 and the two other fields are stamped. *)
Lemma corrupt_image_placeholder_witness :
  let before := [Sample.field TEXT 1 (Some (str "Jane"))] in
  let f := Sample.field INITIALS 2 (Some Sample.brokenURL) in
  let after := [Sample.field CHECKBOX 2 (Some (str "checked"))] in
  let loaded := [Sample.letter; Sample.letter] in
  let b := absoluteBox f Sample.letter in
  let made := fst (@embedRun Sample.lib loaded (before ++ f :: after)) in
  (forall out,
     @save Sample.lib (mkDoc Sample.pdf loaded made) = Some out ->
     @embedSignaturesInPDF Sample.lib Sample.pdf (before ++ f :: after)
     = Resolved out)
  /\ In (DrawText 1 (str "[SIGNATURE]")
           (absX b) (absY b + absHeight b / 2)%float 12%float
           HelveticaBold black None) made
  /\ forall g c,
       In g (before ++ after) ->
       In c (fst (@stampAlone Sample.lib loaded g)) -> In c made.
Proof.
  apply (@corrupt_image_placeholder Sample.lib Sample.pdf
           [Sample.letter; Sample.letter]
           [Sample.field TEXT 1 (Some (str "Jane"))]
           (Sample.field INITIALS 2 (Some Sample.brokenURL))
           [Sample.field CHECKBOX 2 (Some (str "checked"))]
           Sample.brokenURL Sample.letter).
  - reflexivity.
  - right. reflexivity.
  - reflexivity.
  - reflexivity.
  - unfold Number.isSafeInteger. simpl. lia.
  - simpl. lia.
  - reflexivity.
  - reflexivity.
  - reflexivity.
  - intros g [<- | [<- | []]]; reflexivity.
Defined.

(** Bytes that are not a PDF document. *)
Lemma unparseable_document_rejected_witness :
  @embedSignaturesInPDF Sample.lib (str "GIF89a")
    [Sample.field TEXT 1 (Some (str "Jane"))] = Rejected embedFailure
  /\ forall bytes,
       @embedSignaturesInPDF Sample.lib (str "GIF89a")
         [Sample.field TEXT 1 (Some (str "Jane"))] <> Resolved bytes.
Proof.
  apply (@unparseable_document_rejected Sample.lib (str "GIF89a")
           [Sample.field TEXT 1 (Some (str "Jane"))]).
  reflexivity.
Defined.



(** A required text field holding two spaces. *)
Lemma whitespace_value_is_unfilled_witness :
  let f := Sample.field TEXT 1 (Some (str "  ")) in
  let fields := [Sample.field DATE 2 (Some (str "2024-05-01")); f] in
  areAllRequiredFieldsSigned fields None = false
  /\ In f (outstandingRequired fields None)
  /\ exists g, getNextRequiredField fields None = Some g /\ precedes g f.
Proof.
  apply (whitespace_value_is_unfilled
           [Sample.field DATE 2 (Some (str "2024-05-01"));
            Sample.field TEXT 1 (Some (str "  "))]
           None (Sample.field TEXT 1 (Some (str "  "))) (str "  ")).
  - right. left. reflexivity.
  - reflexivity.
  - reflexivity.
  - reflexivity.
  - reflexivity.
Defined.

(** C8 refuted as stated: two signers with one address up to letter case,
    the first without a name; validation fails with the message about names
    and addresses, not with the duplicate-address one. *)
Lemma duplicate_email_with_blank_name :
  let signers :=
    [SignerSetup.mkSigner None (str "amy@sun.co") (str "") (Some (str "Customer")) 1 None None;
     SignerSetup.mkSigner None (str "Amy@Sun.co") (str "Amy") (Some (str "Customer")) 2 None None] in
  @SignerSetup.sameEmailTwice Sample.asciiCase signers
  /\ @SignerSetup.validateSigners Sample.asciiCase signers
     = Some SignerSetup.missingNameOrEmail
  /\ SignerSetup.missingNameOrEmail <> SignerSetup.duplicateEmail.
Proof.
  split; [| split].
  - exists 0%nat, 1%nat. eexists. eexists.
    split; [discriminate |]. split; [reflexivity |]. split; reflexivity.
  - reflexivity.
  - discriminate.
Qed.

(** One address in two spellings, and two distinct addresses. *)
Lemma validateSigners_duplicates_witness :
  let signers :=
    [SignerSetup.mkSigner None (str "amy@sun.co") (str "Amy") None 1 None None;
     SignerSetup.mkSigner None (str "Amy@Sun.co") (str "Amy B") None 2 None None] in
  let distinct :=
    [SignerSetup.mkSigner None (str "amy@sun.co") (str "Amy") None 1 None None;
     SignerSetup.mkSigner None (str "bo@sun.co") (str "Bo") None 2 None None] in
  ((forallb SignerSetup.wellFormed signers = true ->
    @SignerSetup.validateSigners Sample.asciiCase signers
    = Some SignerSetup.duplicateEmail)
   /\ (forall good bad rest,
         signers = good ++ bad :: rest ->
         forallb SignerSetup.wellFormed good = true ->
         SignerSetup.wellFormed bad = false ->
         @SignerSetup.validateSigners Sample.asciiCase signers
         = Some (SignerSetup.loopMessage bad))
   /\ exists message,
        @SignerSetup.validateSigners Sample.asciiCase signers = Some message
        /\ forall server signingOrder,
             @SignerSetup.handleSave Sample.asciiCase server signingOrder signers
             = [SignerSetup.ToastError message])
  /\ @SignerSetup.validateSigners Sample.asciiCase distinct = None.
Proof.
  split.
  - apply (proj1 (@validateSigners_duplicates Sample.asciiCase
             [SignerSetup.mkSigner None (str "amy@sun.co") (str "Amy") None 1 None None;
              SignerSetup.mkSigner None (str "Amy@Sun.co") (str "Amy B") None 2 None None])).
    exists 0%nat, 1%nat. eexists. eexists.
    split; [discriminate |]. split; [reflexivity |]. split; reflexivity.
  - apply (proj2 (@validateSigners_duplicates Sample.asciiCase
             [SignerSetup.mkSigner None (str "amy@sun.co") (str "Amy") None 1 None None;
              SignerSetup.mkSigner None (str "bo@sun.co") (str "Bo") None 2 None None])).
    + reflexivity.
    + vm_compute. repeat constructor; rewrite ?list_elem_of_In; simpl; intuition discriminate.
Defined.

(** ** The order of the calls *)

Section SortGroups.
Context {A : Type} (index : A -> Z).

Lemma filter_index_above (c : Z) (s : list A) :
  (forall e, In e s -> c < index e) ->
  List.filter (fun e => index e <=? c) s = []
  /\ List.filter (fun e => negb (index e <=? c)) s = s.
Proof.
  induction s as [| e s IH]; intros Hall; simpl; [tauto |].
  assert (c < index e) as He by (apply Hall; now left).
  apply Z.leb_gt in He. rewrite He.
  simpl. destruct IH as [-> ->]; [intros; apply Hall; now right |].
  tauto.
Qed.

(** A list sorted by index is its entries up to an index followed by those
    above it. *)
Lemma sorted_index_split (c : Z) (s : list A) :
  StronglySorted (notAfter (compareBy index)) s ->
  List.filter (fun e => index e <=? c) s
  ++ List.filter (fun e => negb (index e <=? c)) s = s.
Proof.
  induction 1 as [| e s Hs IH He]; simpl; [reflexivity |].
  destruct (index e <=? c) eqn:E; simpl.
  - now rewrite IH.
  - apply Z.leb_gt in E.
    destruct (filter_index_above c s) as [-> ->]; [| reflexivity].
    intros e' He'. rewrite List.Forall_forall in He.
    apply He, compareBy_notAfter in He'. lia.
Qed.

(** Sorting by an index that ranges over [lo, lo + n) lists the entries of
    each index in turn, in their order in the list. *)
Lemma sort_by_index (n : nat) :
  forall (lo : Z) (o : list A),
    (forall e, In e o -> lo <= index e < lo + Z.of_nat n) ->
    sort (compareBy index) o
    = flat_map
        (fun i => List.filter (fun e => index e =? lo + Z.of_nat i) o)
        (seq 0 n).
Proof.
  induction n as [| n IH]; intros lo o Hrange.
  - destruct o as [| e o]; [reflexivity |].
    specialize (Hrange e (or_introl eq_refl)). lia.
  - rewrite <- (sorted_index_split lo (sort (compareBy index) o))
      by (apply sort_sorted; [apply compareBy_trans | apply compareBy_total]).
    rewrite !(filter_sort (compareBy index) (compareBy_trans _) (compareBy_total _)).
    change (seq 0 (S n)) with (0%nat :: seq 1 n).
    rewrite <- seq_shift. cbn [flat_map]. rewrite flat_map_map. f_equal.
    + rewrite sort_unordered.
      * apply List.filter_ext_in. intros e He.
        specialize (Hrange e He).
        destruct (Z.leb_spec (index e) lo), (Z.eqb_spec (index e) (lo + Z.of_nat 0));
          try reflexivity; lia.
      * intros a b Ha Hb. apply filter_In in Ha as [Ha Ea], Hb as [Hb Eb].
        apply compareBy_notAfter. apply Z.leb_le in Ea.
        specialize (Hrange b Hb). lia.
    + rewrite (IH (lo + 1)).
      * apply flat_map_ext. intros i.
        rewrite (List.filter_ext (fun e => index e =? lo + 1 + Z.of_nat i)
                   (fun e => index e =? lo + Z.of_nat (S i)))
          by (intros e; f_equal; lia).
        apply filter_filter_implied. intros e He. apply Z.eqb_eq in He.
        apply negb_true_iff, Z.leb_gt. lia.
      * intros e He. apply filter_In in He as [He E].
        apply negb_true_iff, Z.leb_gt in E.
        specialize (Hrange e He). lia.
Qed.
End SortGroups.

(** The array of one key. *)
Lemma fold_pushSignature_one_key key signatures sigs :
  (forall sig, In sig signatures -> pageKey sig = key) ->
  fold_left pushSignature signatures [(key, sigs)] = [(key, sigs ++ signatures)].
Proof.
  revert sigs. induction signatures as [| sig l IH]; intros sigs Hall; simpl.
  - now rewrite app_nil_r.
  - rewrite (Hall sig) by now left. rewrite str_eqb_refl.
    rewrite IH by (intros; apply Hall; now right).
    now rewrite <- app_assoc.
Qed.

Lemma signaturesByPage_one_key key signatures :
  (forall sig, In sig signatures -> pageKey sig = key) ->
  signaturesByPage signatures
  = match signatures with [] => [] | _ :: _ => [(key, signatures)] end.
Proof.
  unfold signaturesByPage. destruct signatures as [| sig l]; intros Hall;
    [reflexivity |].
  simpl. rewrite <- (Hall sig) by now left.
  rewrite fold_pushSignature_one_key; [reflexivity |].
  intros s Hs. rewrite (Hall sig) by now left. apply Hall. now right.
Qed.

(** The entries of one key in the grouping object. *)
Lemma signaturesByPage_key key signatures :
  List.filter (fun e => str_eqb (fst e) key) (signaturesByPage signatures)
  = match List.filter (fun sig => str_eqb (pageKey sig) key) signatures with
    | [] => []
    | _ :: _ =>
        [(key, List.filter (fun sig => str_eqb (pageKey sig) key) signatures)]
    end.
Proof.
  unfold signaturesByPage at 1.
  rewrite (filter_fold_pushSignature (fun k => str_eqb k key)). simpl.
  apply (signaturesByPage_one_key key
           (List.filter (fun sig => str_eqb (pageKey sig) key) signatures)).
  intros sig Hsig. apply filter_In in Hsig as [_ E]. now apply str_eqb_eq in E.
Qed.

Section CallOrder.
Context `{PdfLib}.

(** The run, page by page, when the page numbers are safe integers. *)
Lemma embedRun_by_page loaded signatures :
  Z.of_nat (length loaded) < 2 ^ 32 - 1 ->
  Forall (fun sig => Number.isSafeInteger (pageNumber sig)) signatures ->
  embedRun loaded signatures
  = forEach (stampsOnPage loaded signatures) (seq 0 (length loaded)).
Proof.
  intros Hsmall Hsafe. rewrite List.Forall_forall in Hsafe.
  rewrite embedRun_unskipped. unfold embedRun.
  set (valid := List.filter (fun sig => negb (skips loaded (pageKey sig)))
                  signatures).
  assert (forall f, In f valid ->
            In f signatures /\ 1 <= pageNumber f <= Z.of_nat (length loaded))
    as Hvalid.
  { intros f Hf. apply filter_In in Hf as [Hf Hskip]. split; [exact Hf |].
    rewrite (skips_out_of_range loaded f (Hsafe f Hf)), negb_involutive in Hskip.
    apply andb_true_iff in Hskip as [H1 H2].
    apply Z.leb_le in H1, H2. lia. }
  assert (forall n, 1 <= n <= Z.of_nat (length loaded) ->
            Number.isSafeInteger n
            /\ Number.arrayIndex (Number.toString n) = Some n) as Hindex.
  { intros n Hn.
    assert (Number.isSafeInteger n) as Hs by (unfold Number.isSafeInteger; lia).
    split; [exact Hs |]. rewrite (NumberFacts.arrayIndex_toString n Hs).
    destruct (Z.leb_spec 0 n); [| lia].
    destruct (Z.ltb_spec n (2 ^ 32 - 1)); [reflexivity | lia]. }
  assert (forall e, In e (signaturesByPage valid) ->
            exists n, fst e = Number.toString n
                      /\ 1 <= n <= Z.of_nat (length loaded)) as Hkeys.
  { intros [key sigs] He.
    destruct (signaturesByPage_sound valid key sigs He) as [Hne Hsigs].
    destruct sigs as [| f sigs]; [congruence |].
    destruct (Hsigs f (or_introl eq_refl)) as [Hf <-].
    exists (pageNumber f). split; [reflexivity | now apply Hvalid]. }
  assert (forall e, In e (signaturesByPage valid) ->
            isArrayIndex (fst e) = true
            /\ 1 <= indexOf e < 1 + Z.of_nat (length loaded)) as Hidx.
  { intros e He. destruct (Hkeys e He) as (n & Hn & Hrange).
    destruct (Hindex n Hrange) as [_ Hai].
    unfold isArrayIndex, indexOf. rewrite Hn, Hai.
    split; [now apply bool_decide_eq_true_2 |].
    change (default 0 (Some n)) with n. lia. }
  assert (Object_entries (signaturesByPage valid)
          = sort (compareBy indexOf) (signaturesByPage valid)) as ->.
  { unfold Object_entries. rewrite filter_all, filter_none.
    - now rewrite app_nil_r.
    - intros e He. apply negb_false_iff. now apply Hidx.
    - intros e He. now apply Hidx. }
  rewrite (sort_by_index indexOf (length loaded) 1)
    by (intros e He; now apply Hidx).
  rewrite forEach_flat_map. apply forEach_ext_In. intros i Hi.
  apply in_seq in Hi.
  assert (1 <= 1 + Z.of_nat i <= Z.of_nat (length loaded)) as Hrange by lia.
  destruct (Hindex _ Hrange) as [Hsi Hai].
  rewrite (List.filter_ext_in
             (fun e => indexOf e =? 1 + Z.of_nat i)
             (fun e => str_eqb (fst e) (Number.toString (1 + Z.of_nat i)))).
  2:{ intros e He. destruct (Hkeys e He) as (n & Hn & Hr).
      destruct (Hindex n Hr) as [Hsn Han].
      unfold indexOf. rewrite Hn, Han. change (default 0 (Some n)) with n.
      destruct (Z.eqb_spec n (1 + Z.of_nat i)) as [-> | Hne].
      - symmetry. apply str_eqb_refl.
      - symmetry. apply not_true_iff_false. rewrite str_eqb_eq.
        intros E. apply Hne. now apply NumberFacts.toString_inj. }
  rewrite signaturesByPage_key.
  assert (List.filter
            (fun sig => str_eqb (pageKey sig) (Number.toString (1 + Z.of_nat i)))
            valid
          = List.filter (fun sig => pageNumber sig =? Z.of_nat i + 1) signatures)
    as ->.
  { unfold valid. rewrite filter_filter_implied.
    - apply List.filter_ext_in. intros f Hf.
      destruct (Z.eqb_spec (pageNumber f) (Z.of_nat i + 1)) as [E | Hne].
      + unfold pageKey. rewrite E. replace (Z.of_nat i + 1) with (1 + Z.of_nat i)
          by lia. apply str_eqb_refl.
      + apply not_true_iff_false. rewrite str_eqb_eq. intros E. apply Hne.
        apply (NumberFacts.toString_inj _ _ (Hsafe f Hf) Hsi) in E. lia.
    - intros f E. apply str_eqb_eq in E. unfold skips. rewrite E.
      rewrite (NumberFacts.parseInt_toString _ Hsi).
      rewrite NumberFacts.toDouble_safe by lia.
      apply negb_true_iff, orb_false_iff. rewrite Z.geb_leb.
      split; [apply Z.ltb_ge | apply Z.leb_gt]; lia. }
  unfold stampsOnPage.
  destruct (nth_error loaded i) as [size |] eqn:En;
    [| apply nth_error_None in En; lia].
  destruct (List.filter (fun sig => pageNumber sig =? Z.of_nat i + 1) signatures)
    as [| sig sigs] eqn:Epage; [reflexivity |].
  rewrite forEach_one. unfold stampPage. cbn [fst snd].
  rewrite (NumberFacts.parseInt_toString _ Hsi).
  rewrite NumberFacts.toDouble_safe by lia.
  destruct (Z.ltb_spec (1 + Z.of_nat i - 1) 0); [lia |].
  rewrite Z.geb_leb.
  destruct (Z.leb_spec (Z.of_nat (length loaded)) (1 + Z.of_nat i - 1)); [lia |].
  cbn [orb]. replace (Z.to_nat (1 + Z.of_nat i - 1)) with i by lia.
  now rewrite En.
Qed.

(** X4.  For a document with fewer than 2^32 - 1 pages and page numbers
    that are safe integers, the loops work page by page in ascending page
    order, whatever the order of the list, and on each page through the
    signatures of that page in the order of the list; the run ends with the
    first call that throws. *)
Theorem embedCalls_page_order pdfBytes loaded signatures :
  load pdfBytes = Some loaded ->
  Z.of_nat (length loaded) < 2 ^ 32 - 1 ->
  Forall (fun sig => Number.isSafeInteger (pageNumber sig)) signatures ->
  embedSignaturesInPDF pdfBytes signatures
  = finish pdfBytes loaded
      (forEach (stampsOnPage loaded signatures) (seq 0 (length loaded))).
Proof.
  intros Hload Hsmall Hsafe. unfold embedSignaturesInPDF. rewrite Hload.
  f_equal. now apply embedRun_by_page.
Qed.

(** X20.  For a document with fewer than 2^32 - 1 pages and page numbers
    that are safe integers, the signatures without a value can be left out
    of the list: the run on the signatures that have a value has the same
    outcome. *)
Theorem embed_ignores_unfilled pdfBytes signatures loaded :
  load pdfBytes = Some loaded ->
  Z.of_nat (length loaded) < 2 ^ 32 - 1 ->
  Forall (fun sig => Number.isSafeInteger (pageNumber sig)) signatures ->
  embedSignaturesInPDF pdfBytes signatures
  = embedSignaturesInPDF pdfBytes
      (List.filter (fun sig => truthy (value sig)) signatures).
Proof.
  intros Hload Hsmall Hsafe.
  unfold embedSignaturesInPDF. rewrite Hload. f_equal.
  rewrite !embedRun_by_page; try exact Hsmall; try exact Hsafe.
  2:{ rewrite List.Forall_forall in *. intros f Hf.
      apply filter_In in Hf as [Hf _]. now apply Hsafe. }
  apply forEach_ext_In. intros i _. unfold stampsOnPage.
  destruct (nth_error loaded i) as [size |]; [| reflexivity].
  clear Hsafe.
  induction signatures as [| sig l IH]; simpl; [reflexivity |].
  destruct (truthy (value sig)) eqn:Ev; simpl;
    destruct (pageNumber sig =? Z.of_nat i + 1); simpl; rewrite IH;
    try reflexivity.
  rewrite (stampField_no_value i size sig Ev). apply bind_ret_l.
Qed.

End CallOrder.

(** The witness for the order of the pages: three fields given out of page
    order, one of them on a page the sample document does not have. *)
Lemma embedCalls_page_order_witness :
  let fields := [Sample.field TEXT 2 (Some (str "Doe"));
                 Sample.field CHECKBOX 7 (Some (str "checked"));
                 Sample.field TEXT 1 (Some (str "Jane"))] in
  @embedSignaturesInPDF Sample.lib Sample.pdf fields
  = @finish Sample.lib Sample.pdf [Sample.letter; Sample.letter]
      (forEach (@stampsOnPage Sample.lib [Sample.letter; Sample.letter] fields)
         (seq 0 2)).
Proof.
  apply (@embedCalls_page_order Sample.lib Sample.pdf
           [Sample.letter; Sample.letter]
           [Sample.field TEXT 2 (Some (str "Doe"));
            Sample.field CHECKBOX 7 (Some (str "checked"));
            Sample.field TEXT 1 (Some (str "Jane"))]).
  - reflexivity.
  - reflexivity.
  - repeat constructor; unfold Number.isSafeInteger; simpl; lia.
Defined.

(** A list with an empty date between two filled fields. *)
Lemma embed_ignores_unfilled_witness :
  let fields := [Sample.field TEXT 1 (Some (str "Jane"));
                 Sample.field DATE 1 None;
                 Sample.field CHECKBOX 2 (Some (str "checked"))] in
  @embedSignaturesInPDF Sample.lib Sample.pdf fields
  = @embedSignaturesInPDF Sample.lib Sample.pdf
      (List.filter (fun sig => truthy (value sig)) fields).
Proof.
  apply (@embed_ignores_unfilled Sample.lib Sample.pdf
           [Sample.field TEXT 1 (Some (str "Jane"));
            Sample.field DATE 1 None;
            Sample.field CHECKBOX 2 (Some (str "checked"))]
           [Sample.letter; Sample.letter]).
  - reflexivity.
  - reflexivity.
  - repeat constructor; unfold Number.isSafeInteger; simpl; lia.
Defined.

(** ** Signing progress: how the two functions agree *)

(** X5.  All required fields in scope are signed exactly when there is no
    next required field. *)
Theorem all_signed_iff_no_next fields wanted :
  areAllRequiredFieldsSigned fields wanted = true
  <-> getNextRequiredField fields wanted = None.
Proof.
  unfold areAllRequiredFieldsSigned, getNextRequiredField.
  rewrite forallb_forall. split.
  - intros Hall.
    destruct (sort compareFields (outstandingRequired fields wanted))
      as [| g rest] eqn:E; [reflexivity |].
    assert (In g (outstandingRequired fields wanted)) as Hg
      by (apply (In_sort compareFields); rewrite E; now left).
    apply In_outstandingRequired in Hg as (Hin & Hreq & Hfor & Hun).
    rewrite isUnfilled_negb, negb_true_iff in Hun.
    rewrite Hall in Hun; [discriminate |].
    apply filter_In. rewrite Hreq, Hfor. tauto.
  - intros Hnone f Hf. apply filter_In in Hf as [Hin Hf].
    apply andb_true_iff in Hf as [Hreq Hfor].
    destruct (isFilled f) eqn:Efill; [reflexivity |].
    assert (In f (outstandingRequired fields wanted)) as Hcand.
    { apply In_outstandingRequired. rewrite isUnfilled_negb, Efill. tauto. }
    apply (In_sort compareFields) in Hcand.
    destruct (sort compareFields (outstandingRequired fields wanted));
      [destruct Hcand | discriminate].
Qed.

Section SortFirst.
Context {A : Type} (cmp : A -> A -> Q).

(** The head of the sorted list stands in the list behind elements that
    must come after it only. *)
Lemma sort_head_first (l : list A) (m : A) :
  head (sort cmp l) = Some m ->
  exists l1 l2, l = l1 ++ m :: l2 /\ forall a, In a l1 -> ~ notAfter cmp a m.
Proof.
  revert m. induction l as [| a l IH]; intros m; simpl; [discriminate |].
  destruct (sort cmp l) as [| b s] eqn:E; simpl.
  - intros [= <-]. exists [], l. split; [reflexivity | intros ? []].
  - destruct (Qgtb (cmp a b) 0) eqn:Eab; simpl.
    + intros [= <-].
      destruct (IH b eq_refl) as (l1 & l2 & -> & Hl1).
      exists (a :: l1), l2. split; [reflexivity |].
      intros c [<- | Hc]; [unfold notAfter; congruence | now apply Hl1].
    + intros [= <-]. exists [], l. split; [reflexivity | intros ? []].
Qed.
End SortFirst.

(** X6.  The field returned by [getNextRequiredField] is required, in
    scope and without a value, and it is the first of the lowest candidates
    in the order of the list: every candidate listed before it comes
    strictly later on the document. *)
Theorem getNextRequiredField_first_lowest fields wanted f :
  getNextRequiredField fields wanted = Some f ->
  required f = true /\ forSigner wanted f = true /\ isFilled f = false
  /\ exists before after,
       outstandingRequired fields wanted = before ++ f :: after
       /\ forall g, In g before -> ~ precedes g f.
Proof.
  unfold getNextRequiredField. intros Hhead.
  destruct (sort_head_first compareFields _ f Hhead) as (l1 & l2 & E & Hl1).
  assert (In f (outstandingRequired fields wanted)) as Hf
    by (rewrite E; apply in_or_app; right; now left).
  apply In_outstandingRequired in Hf as (_ & Hreq & Hfor & Hun).
  rewrite isUnfilled_negb, negb_true_iff in Hun.
  repeat split; try assumption.
  exists l1, l2. split; [exact E |].
  intros g Hg Hp. apply (Hl1 g Hg). now apply compareFields_notAfter.
Qed.

(** Two outstanding fields at one place, behind a field further down. *)
Lemma getNextRequiredField_first_lowest_witness :
  let low := Sample.field DATE 1 None in
  let fields := [Sample.field TEXT 2 None; low; Sample.field DATE 1 (Some [])] in
  required low = true /\ forSigner None low = true /\ isFilled low = false
  /\ exists before after,
       outstandingRequired fields None = before ++ low :: after
       /\ forall g, In g before -> ~ precedes g low.
Proof.
  apply (getNextRequiredField_first_lowest
           [Sample.field TEXT 2 None; Sample.field DATE 1 None;
            Sample.field DATE 1 (Some [])]
           None (Sample.field DATE 1 None)).
  reflexivity.
Defined.

(** ** The e-mail pattern *)

Module RegExpFacts.
Import RegExp.

Lemma nullable_matches (r : regex) : nullable r = true <-> regexMatches r [].
Proof.
  induction r as [| | p | r IHr s IHs | r IHr s IHs | r IHr]; simpl.
  - split; [discriminate | inversion 1].
  - split; [constructor | reflexivity].
  - split; [discriminate | inversion 1].
  - rewrite andb_true_iff, IHr, IHs. split.
    + intros [Hr Hs]. apply (MatchCat r s [] [] Hr Hs).
    + intros Hm. inversion Hm as [| | ? ? u v Hu Hv | | | |]; subst.
      match goal with
      | E : _ ++ _ = [] |- _ => apply app_eq_nil in E as [-> ->]
      end.
      tauto.
  - rewrite orb_true_iff, IHr, IHs. split.
    + intros [Hr | Hs]; [now apply MatchAltL | now apply MatchAltR].
    + inversion 1; subst; tauto.
  - split; [constructor | reflexivity].
Qed.

Lemma deriv_sound (c : N) (r : regex) :
  forall s, regexMatches (deriv c r) s -> regexMatches r (c :: s).
Proof.
  induction r as [| | p | r IHr r' IHr' | r IHr r' IHr' | r IHr];
    simpl; intros s Hm.
  - inversion Hm.
  - inversion Hm.
  - destruct (p c) eqn:E; inversion Hm; subst. now constructor.
  - destruct (nullable r) eqn:En.
    + inversion Hm as [| | | ? ? ? Hl | ? ? ? Hr | |]; subst.
      * inversion Hl as [| | ? ? u v Hu Hv | | | |]; subst.
        apply (MatchCat r r' (c :: u) v); [now apply IHr | exact Hv].
      * apply nullable_matches in En.
        apply (MatchCat r r' [] (c :: s)); [exact En | now apply IHr'].
    + inversion Hm as [| | ? ? u v Hu Hv | | | |]; subst.
      apply (MatchCat r r' (c :: u) v); [now apply IHr | exact Hv].
  - inversion Hm; subst; [apply MatchAltL | apply MatchAltR]; auto.
  - inversion Hm as [| | ? ? u v Hu Hv | | | |]; subst.
    apply (MatchStarCons r (c :: u) v); [now apply IHr | exact Hv].
Qed.

Lemma deriv_complete (r : regex) (w : jsstring) :
  regexMatches r w ->
  forall c s, w = c :: s -> regexMatches (deriv c r) s.
Proof.
  induction 1 as [| p c' Hp | r r' u v Hu IHu Hv IHv | r r' u Hu IHu
                  | r r' u Hu IHu | r | r u v Hu IHu Hv IHv];
    intros c s E; simpl.
  - discriminate.
  - injection E as -> <-. rewrite Hp. constructor.
  - destruct u as [| c0 u].
    + simpl in E. subst v.
      apply nullable_matches in Hu. rewrite Hu.
      apply MatchAltR. now apply IHv.
    + injection E as -> <-.
      assert (regexMatches (Cat (deriv c r) r') (u ++ v)) as Hcat
        by (apply MatchCat; [now apply IHu | exact Hv]).
      destruct (nullable r); [now apply MatchAltL | exact Hcat].
  - apply MatchAltL. now apply IHu.
  - apply MatchAltR. now apply IHu.
  - discriminate.
  - destruct u as [| c0 u].
    + simpl in E. now apply IHv.
    + injection E as -> <-.
      apply MatchCat; [now apply IHu | exact Hv].
Qed.

(** [test] decides the relation. *)
Lemma test_matches (r : regex) (s : jsstring) :
  test r s = true <-> regexMatches r s.
Proof.
  unfold test. revert r. induction s as [| c s IH]; intros r; simpl.
  - apply nullable_matches.
  - rewrite IH. split; [apply deriv_sound |].
    intros Hm. now apply (deriv_complete r (c :: s)).
Qed.

Lemma star_class (p : N -> bool) (s : jsstring) :
  regexMatches (Star (CharClass p)) s <-> forallb p s = true.
Proof.
  split.
  - intros Hm. remember (Star (CharClass p)) as r eqn:Er.
    induction Hm as [| | | | | r' | r' u v Hu _ Hv IHv]; try discriminate.
    + reflexivity.
    + injection Er as ->. inversion Hu; subst. simpl.
      rewrite IHv by reflexivity. now rewrite andb_true_r.
  - induction s as [| c s IH]; simpl; [constructor |].
    rewrite andb_true_iff. intros [Hc Hs].
    apply (MatchStarCons (CharClass p) [c] s); [now constructor | now apply IH].
Qed.

Lemma plus_class (p : N -> bool) (s : jsstring) :
  regexMatches (Plus (CharClass p)) s <-> s <> [] /\ forallb p s = true.
Proof.
  unfold Plus. split.
  - inversion 1 as [| | ? ? u v Hu Hv | | | |]; subst.
    inversion Hu; subst. apply star_class in Hv. simpl.
    split; [discriminate | now rewrite Hv, andb_true_r].
  - intros [Hne Hall]. destruct s as [| c s]; [congruence |].
    simpl in Hall. apply andb_true_iff in Hall as [Hc Hs].
    apply (MatchCat (CharClass p) (Star (CharClass p)) [c] s);
      [now constructor | now apply star_class].
Qed.

Lemma char_matches (a : ascii) (s : jsstring) :
  regexMatches (char a) s <-> s = [N_of_ascii a].
Proof.
  unfold char. split.
  - inversion 1 as [| ? c Hc | | | | |]; subst. apply N.eqb_eq in Hc. now subst.
  - intros ->. constructor. apply N.eqb_refl.
Qed.

End RegExpFacts.

(** An accepted string, part by part. *)
Lemma validateEmail_split (email : jsstring) :
  validateEmail email = true ->
  exists localPart domain tld,
    email = localPart ++ str "@" ++ domain ++ str "." ++ tld
    /\ addressPart localPart /\ addressPart domain /\ addressPart tld.
Proof.
  unfold validateEmail. rewrite RegExpFacts.test_matches.
  unfold RegExp.emailRegex, addressPart.
  inversion 1 as [| | ? ? a rest Ha Hrest | | | |]; subst.
  inversion Hrest as [| | ? ? at_ rest' Hat Hrest' | | | |]; subst.
  inversion Hrest' as [| | ? ? b rest'' Hb Hrest'' | | | |]; subst.
  inversion Hrest'' as [| | ? ? dot c Hdot Hc | | | |]; subst.
  apply RegExpFacts.char_matches in Hat, Hdot. subst.
  apply RegExpFacts.plus_class in Ha, Hb, Hc.
  exists a, b, c. tauto.
Qed.

(** X7.  [validateEmail] accepts exactly the strings of the form
    [local@domain.tld] in which the three parts are non-empty and contain
    neither white space nor ['@']. *)
Theorem validateEmail_shape (email : jsstring) :
  validateEmail email = true <->
  exists localPart domain tld,
    email = localPart ++ str "@" ++ domain ++ str "." ++ tld
    /\ addressPart localPart /\ addressPart domain /\ addressPart tld.
Proof.
  split; [apply validateEmail_split |].
  intros (a & b & c & -> & Ha & Hb & Hc).
  unfold validateEmail. apply RegExpFacts.test_matches.
  unfold RegExp.emailRegex, addressPart in *.
  apply RegExpFacts.plus_class in Ha, Hb, Hc.
  repeat (apply MatchCat); try assumption;
    apply RegExpFacts.char_matches; reflexivity.
Qed.

(** X8.  An address that [validateEmail] accepts has no white space,
    exactly one ['@'] and at least five characters; any other string is
    rejected. *)
Theorem validateEmail_necessary (email : jsstring) :
  validateEmail email = true ->
  forallb (fun c => negb (isWhiteSpace c)) email = true
  /\ count_occ N.eq_dec email (N_of_ascii "@") = 1%nat
  /\ (5 <= length email)%nat.
Proof.
  intros Hok. apply validateEmail_split in Hok.
  destruct Hok as (a & b & c & -> & [Ha Ha'] & [Hb Hb'] & [Hc Hc']).
  assert (forall s, forallb addressChar s = true ->
            forallb (fun c => negb (isWhiteSpace c)) s = true
            /\ count_occ N.eq_dec s (N_of_ascii "@") = 0%nat) as Hpart.
  { induction s as [| d s IH]; cbn [forallb count_occ]; [tauto |].
    rewrite andb_true_iff. unfold addressChar at 1.
    rewrite andb_true_iff, !negb_true_iff, N.eqb_neq.
    intros [[Hws Hat] Hs]. destruct (IH Hs) as [-> ->].
    rewrite Hws. destruct (N.eq_dec d (N_of_ascii "@")); [congruence | tauto]. }
  destruct (Hpart a Ha') as [Wa Ca], (Hpart b Hb') as [Wb Cb],
    (Hpart c Hc') as [Wc Cc].
  repeat split.
  - rewrite !forallb_app, Wa, Wb, Wc. reflexivity.
  - rewrite !count_occ_app, Ca, Cb, Cc. reflexivity.
  - rewrite !length_app.
    destruct a, b, c; simpl in *; try congruence; lia.
Qed.

(** A plain address. *)
Lemma validateEmail_necessary_witness :
  forallb (fun c => negb (isWhiteSpace c)) (str "amy@sun.co") = true
  /\ count_occ N.eq_dec (str "amy@sun.co") (N_of_ascii "@") = 1%nat
  /\ (5 <= length (str "amy@sun.co"))%nat.
Proof.
  apply (validateEmail_necessary (str "amy@sun.co")). reflexivity.
Defined.

(** ** Uploaded files *)

(** X9.  [validatePDFFile] accepts a file exactly when its type is
    ['application/pdf'], its size is at most 52428800 bytes (a file of
    exactly 50MB passes) and its lower-cased name ends in ['.pdf']; the
    result carries an error message exactly when it is not valid, and a wrong
    type is reported before size and name are looked at. *)
Theorem validatePDFFile_accepts `{CaseMapping} (file : PdfFile.File) :
  (PdfFile.isValid (PdfFile.validatePDFFile file) = true <->
   PdfFile.type file = str "application/pdf"
   /\ PdfFile.size file <= 52428800
   /\ endsWith (toLowerCase (PdfFile.name file)) (str ".pdf") = true)
  /\ (PdfFile.error (PdfFile.validatePDFFile file) = None <->
      PdfFile.isValid (PdfFile.validatePDFFile file) = true)
  /\ (PdfFile.type file <> str "application/pdf" ->
      PdfFile.validatePDFFile file
      = PdfFile.mkValidation false (Some PdfFile.notPdf)).
Proof.
  unfold PdfFile.validatePDFFile, str_eqb.
  case_bool_decide as Ety; cbn [negb].
  - destruct (PdfFile.size file >? 50 * 1024 * 1024) eqn:Esz.
    + rewrite Z.gtb_ltb in Esz. apply Z.ltb_lt in Esz. cbn.
      split; [split; [discriminate | intros (_ & Hs & _); lia] |].
      split; [split; discriminate | intros Hne; destruct (Hne Ety)].
    + rewrite Z.gtb_ltb in Esz. apply Z.ltb_ge in Esz.
      destruct (endsWith (toLowerCase (PdfFile.name file)) (str ".pdf")) eqn:En;
        cbn.
      * split; [split; [intros _; repeat split; [exact Ety | lia] | reflexivity] |].
        split; [split; reflexivity | intros Hne; destruct (Hne Ety)].
      * split; [split; [discriminate | intros (_ & _ & Hn); discriminate] |].
        split; [split; discriminate | intros Hne; destruct (Hne Ety)].
  - cbn. split; [split; [discriminate | intros (Hty & _); destruct (Ety Hty)] |].
    split; [split; discriminate | reflexivity].
Qed.

(** A scanned contract of one megabyte. *)
Lemma validatePDFFile_accepts_witness :
  let file := PdfFile.mkFile (str "Contract.PDF") (str "application/pdf") 1048576 in
  PdfFile.isValid (@PdfFile.validatePDFFile Sample.asciiCase file) = true.
Proof.
  apply (proj1 (@validatePDFFile_accepts Sample.asciiCase
                  (PdfFile.mkFile (str "Contract.PDF") (str "application/pdf") 1048576))).
  repeat split. vm_compute. discriminate.
Defined.

(** ** Dropping a field on a page *)

(** X10.  The label [handleDrop] gives a new field is the display name of
    its type for each of the five field types; for any other type string
    the label is ['Checkbox'] while the display name is the string itself. *)
Theorem drop_label_display_name (t : jsstring) (page : Z) (px py : Q) :
  (forall ft, FieldDrop.label (FieldDrop.newField (typeName ft) page px py)
              = getFieldTypeDisplayName (typeName ft))
  /\ ((forall ft, t <> typeName ft) ->
      FieldDrop.label (FieldDrop.newField t page px py) = str "Checkbox"
      /\ getFieldTypeDisplayName t = t).
Proof.
  split.
  - intros []; reflexivity.
  - intros Hnot.
    pose proof (Hnot SIGNATURE) as H1. pose proof (Hnot INITIALS) as H2.
    pose proof (Hnot DATE) as H3. pose proof (Hnot TEXT) as H4.
    pose proof (Hnot CHECKBOX) as H5. simpl in H1, H2, H3, H4, H5.
    unfold getFieldTypeDisplayName, FieldDrop.newField, str_eqb.
    cbn [FieldDrop.label].
    rewrite !bool_decide_eq_false_2 by assumption. split; reflexivity.
Qed.

Lemma drop_label_display_name_witness :
  FieldDrop.label (FieldDrop.newField (str "STAMP") 1 50 50) = str "Checkbox"
  /\ getFieldTypeDisplayName (str "STAMP") = str "STAMP".
Proof.
  apply (proj2 (drop_label_display_name (str "STAMP") 1 50 50)).
  intros []; discriminate.
Defined.

(** X11.  A dropped field always has [x] in [0,90] and [y] in [0,95].
    [validateFieldCoordinates] accepts it exactly when the pointer is more
    than 5 percent from the left and more than 2 percent from the top of the
    page and, for a SIGNATURE field, at most 85 percent across and 94
    percent down, for a DATE field at most 90 percent across; so fields
    dropped against the left or top edge, and signatures dropped near the
    right or bottom edge, are fields the validator rejects. *)
Theorem dropped_field_validated (t : jsstring) (page : Z) (px py : Q) :
  let f := FieldDrop.newField t page px py in
  (0 <= FieldDrop.x f <= 90 /\ 0 <= FieldDrop.y f <= 95)%Q
  /\ (validateFieldCoordinates (FieldDrop.coordinates f) = true <->
      (5 < px /\ 2 < py
       /\ (t = str "SIGNATURE" -> px <= 85 /\ py <= 94)
       /\ (t = str "DATE" -> px <= 90))%Q).
Proof.
  intros f.
  change (FieldDrop.coordinates f)
    with (asPartial (mkField [] SIGNATURE 0 (FieldDrop.x f) (FieldDrop.y f)
                       (FieldDrop.width f) (FieldDrop.height f)
                       false None None None)).
  rewrite validateFieldCoordinates_true.
  subst f. cbn [FieldDrop.newField FieldDrop.x FieldDrop.y FieldDrop.width
                 FieldDrop.height x y width height].
  pose proof (Q.max_spec 0 (Qmin (px - 5) 90)) as Hx.
  pose proof (Q.min_spec (px - 5) 90) as Hx'.
  pose proof (Q.max_spec 0 (Qmin (py - 2) 95)) as Hy.
  pose proof (Q.min_spec (py - 2) 95) as Hy'.
  set (nx := Qmax 0 (Qmin (px - 5) 90)) in *.
  set (ny := Qmax 0 (Qmin (py - 2) 95)) in *.
  set (mx := Qmin (px - 5) 90) in *.
  set (my := Qmin (py - 2) 95) in *.
  assert (0 <= nx <= 90 /\ (0 < nx <-> 5 < px) /\ (nx <= 80 <-> px <= 85)
          /\ (nx <= 85 <-> px <= 90))%Q as (Bx & Px & Sx & Dx)
    by (destruct Hx as [[? ?] | [? ?]], Hx' as [[? ?] | [? ?]];
        repeat split; intros; lra).
  assert (0 <= ny <= 95 /\ (0 < ny <-> 2 < py) /\ (ny <= 92 <-> py <= 94))%Q
    as (By & Py & Sy)
    by (destruct Hy as [[? ?] | [? ?]], Hy' as [[? ?] | [? ?]];
        repeat split; intros; lra).
  clearbody nx ny. clear Hx Hx' Hy Hy' mx my.
  split; [lra |]. unfold str_eqb.
  case_bool_decide as Es.
  - subst t. split.
    + intros (H1 & H2 & _ & _ & H5 & H6).
      split; [now apply Px |]. split; [now apply Py |].
      split; [intros _; split; [apply Sx | apply Sy]; lra | discriminate].
    + intros (H1 & H2 & Hsig & _). destruct (Hsig eq_refl) as [H3 H4].
      apply Px in H1. apply Py in H2. apply Sx in H3. apply Sy in H4.
      repeat split; lra.
  - case_bool_decide as Ed.
    + subst t. split.
      * intros (H1 & H2 & _ & _ & H5 & H6).
        split; [now apply Px |]. split; [now apply Py |].
        split; [intros E; destruct (Es E) | intros _; apply Dx; lra].
      * intros (H1 & H2 & _ & Hdate). pose proof (Hdate eq_refl) as H3.
        apply Px in H1. apply Py in H2. apply Dx in H3.
        repeat split; lra.
    + split.
      * intros (H1 & H2 & _ & _ & H5 & H6).
        split; [now apply Px |]. split; [now apply Py |].
        split; [intros E; destruct (Es E) | intros E; destruct (Ed E)].
      * intros (H1 & H2 & _ & _).
        apply Px in H1. apply Py in H2.
        repeat split; lra.
Qed.

(** A signature dropped at 90 percent across the page overflows the right
    edge; the same drop at the middle of the page is accepted. *)
Lemma dropped_field_validated_witness :
  validateFieldCoordinates
    (FieldDrop.coordinates (FieldDrop.newField (str "SIGNATURE") 1 50 50)) = true.
Proof.
  apply (proj2 (dropped_field_validated (str "SIGNATURE") 1 50 50)).
  repeat split; try lra; intros _; lra.
Defined.

(** ** Editing the list of signers *)

Section SignerEdits.
Import SignerSetup SignerList.

Lemma setOrder_same (signer : Signer) :
  setOrder (signingOrder signer) signer = signer.
Proof. now destruct signer. Qed.

Lemma setOrder_setOrder (a b : Z) (signer : Signer) :
  setOrder a (setOrder b signer) = setOrder a signer.
Proof. reflexivity. Qed.

Lemma lookup_renumber (l : list Signer) (i : nat) :
  renumber l !! i = setOrder (Z.of_nat i + 1) <$> l !! i.
Proof.
  unfold renumber. rewrite list_lookup_imap. now destruct (l !! i).
Qed.

Lemma length_renumber (l : list Signer) : length (renumber l) = length l.
Proof. unfold renumber. apply length_imap. Qed.

Lemma renumber_dense (l : list Signer) : denseOrder (renumber l).
Proof.
  intros i s. rewrite lookup_renumber.
  destruct (l !! i) as [s0 |]; simpl; [| discriminate].
  now intros [= <-].
Qed.

Lemma dense_renumber (l : list Signer) : denseOrder l -> renumber l = l.
Proof.
  intros Hd. apply list_eq. intros i. rewrite lookup_renumber.
  destruct (l !! i) as [s |] eqn:E; simpl; [| reflexivity].
  rewrite <- (Hd i s E). now rewrite setOrder_same.
Qed.

Lemma person_renumber (l : list Signer) : person <$> renumber l = person <$> l.
Proof.
  apply list_eq. intros i. rewrite !list_lookup_fmap, lookup_renumber.
  now destruct (l !! i).
Qed.

(** Exchanging two neighbours, written with two updates. *)
Lemma swap_neighbours {A : Type} (l : list A) (a : nat) (u v : A) :
  l !! a = Some u -> l !! S a = Some v ->
  <[a := v]> (<[S a := u]> l) = take a l ++ v :: u :: drop (S (S a)) l.
Proof.
  revert l. induction a as [| a IH]; intros [| h [| h' t]]; simpl;
    try discriminate.
  - now intros [= ->] [= ->].
  - intros Hu Hv. f_equal. now apply (IH (h' :: t)).
Qed.

Lemma swap_neighbours_perm {A : Type} (l : list A) (a : nat) (u v : A) :
  l !! a = Some u -> l !! S a = Some v ->
  <[a := v]> (<[S a := u]> l) ≡ₚ l.
Proof.
  intros Hu Hv. rewrite (swap_neighbours l a u v Hu Hv).
  rewrite <- (take_drop a l) at 3.
  apply Permutation_app_head.
  rewrite (drop_S l u a Hu), (drop_S l v (S a) Hv). apply perm_swap.
Qed.

(** X12.  The edits of the dialog keep the signing orders dense: when the
    orders are 1, 2, ... in list order, they still are after adding a signer
    (by hand or from a contact), editing the text of a signer, removing a
    signer or moving one up or down. *)
Theorem edits_keep_dense_order edit signers signers' :
  denseOrder signers -> keepsOrder edit ->
  SignerList.apply edit signers = Some signers' ->
  denseOrder signers'.
Proof.
  intros Hd Hkeep Happ.
  assert (forall c, denseOrder (addSigner c signers)) as Hadd.
  { intros c i s. unfold addSigner.
    destruct (decide (i < length signers)%nat) as [Hlt | Hge].
    - rewrite lookup_app_l by exact Hlt. apply Hd.
    - rewrite lookup_app_r by lia.
      destruct (i - length signers)%nat as [| k] eqn:Ek; simpl;
        [| discriminate].
      intros [= <-]. simpl. lia. }
  destruct edit as [c | c | index updates | index | index | index];
    simpl in Happ.
  - injection Happ as <-. apply Hadd.
  - injection Happ as <-. unfold addFromContact.
    destruct (alreadyAdded c signers); [exact Hd | apply Hadd].
  - unfold updateSigner in Happ.
    destruct (signers !! index) as [s0 |] eqn:E; [| discriminate].
    injection Happ as <-. intros i s.
    destruct (decide (i = index)) as [-> | Hne].
    + rewrite list_lookup_insert_eq by (now apply lookup_lt_Some in E).
      intros [= <-]. simpl in Hkeep. unfold spread. simpl. rewrite Hkeep.
      simpl. now apply Hd.
    + rewrite list_lookup_insert_ne by congruence. apply Hd.
  - injection Happ as <-. apply renumber_dense.
  - unfold moveSignerUp in Happ.
    destruct (index =? 0)%nat; [injection Happ as <-; exact Hd |].
    destruct (signers !! (index - 1)%nat), (signers !! index);
      try discriminate.
    injection Happ as <-. apply renumber_dense.
  - unfold moveSignerDown in Happ.
    destruct (Z.of_nat index =? Z.of_nat (length signers) - 1);
      [injection Happ as <-; exact Hd |].
    destruct (signers !! index), (signers !! (index + 1)%nat);
      try discriminate.
    injection Happ as <-. apply renumber_dense.
Qed.

(** X13.  Removing a signer leaves the other signers in their order, one
    fewer when the index was in the list, and numbers them 1, 2, ...
    whatever the orders were before. *)
Theorem removeSigner_others index signers :
  person <$> removeSigner index signers = delete index (person <$> signers)
  /\ denseOrder (removeSigner index signers)
  /\ ((index < length signers)%nat ->
      S (length (removeSigner index signers)) = length signers).
Proof.
  unfold removeSigner. split; [| split].
  - rewrite person_renumber. apply list_eq. intros i.
    rewrite list_lookup_fmap.
    destruct (decide (i < index)%nat).
    + rewrite !list_lookup_delete_lt by assumption. now rewrite list_lookup_fmap.
    + rewrite !list_lookup_delete_ge by lia. now rewrite list_lookup_fmap.
  - apply renumber_dense.
  - intros Hlt. rewrite length_renumber, length_delete; [lia |].
    now apply lookup_lt_is_Some.
Qed.

Lemma move_same_signers_aux index signers signers' :
  moveSignerUp index signers = Some signers'
  \/ moveSignerDown index signers = Some signers' ->
  person <$> signers' ≡ₚ person <$> signers.
Proof.
  intros [Hup | Hdown].
  - unfold moveSignerUp in Hup.
    destruct (index =? 0)%nat eqn:E0; [injection Hup as <-; reflexivity |].
    apply Nat.eqb_neq in E0.
    destruct (signers !! (index - 1)%nat) as [above |] eqn:Ea; [| discriminate].
    destruct (signers !! index) as [moved |] eqn:Em; [| discriminate].
    injection Hup as <-.
    replace index with (S (index - 1)) in Em |- * at 2 by lia.
    rewrite person_renumber. apply fmap_Permutation.
    now apply swap_neighbours_perm.
  - unfold moveSignerDown in Hdown.
    destruct (Z.of_nat index =? Z.of_nat (length signers) - 1);
      [injection Hdown as <-; reflexivity |].
    destruct (signers !! index) as [moved |] eqn:Em; [| discriminate].
    destruct (signers !! (index + 1)%nat) as [below |] eqn:Eb; [| discriminate].
    injection Hdown as <-. rewrite Nat.add_1_r in Eb |- *.
    rewrite person_renumber. apply fmap_Permutation.
    now apply swap_neighbours_perm.
Qed.

(** X14.  Moving a signer up or down keeps the same signers: the list after
    the move is a rearrangement of the list before it, signing orders
    aside, and has the same length. *)
Theorem move_same_signers index signers signers' :
  moveSignerUp index signers = Some signers'
  \/ moveSignerDown index signers = Some signers' ->
  person <$> signers' ≡ₚ person <$> signers
  /\ length signers' = length signers.
Proof.
  intros [Hup | Hdown].
  - unfold moveSignerUp in Hup.
    destruct (index =? 0)%nat eqn:E0; [injection Hup as <-; split; reflexivity |].
    apply Nat.eqb_neq in E0.
    destruct (signers !! (index - 1)%nat) as [above |] eqn:Ea; [| discriminate].
    destruct (signers !! index) as [moved |] eqn:Em; [| discriminate].
    injection Hup as <-.
    replace index with (S (index - 1)) in Em |- * at 2 by lia.
    split.
    + rewrite person_renumber. apply fmap_Permutation.
      now apply swap_neighbours_perm.
    + now rewrite length_renumber, !length_insert.
  - unfold moveSignerDown in Hdown.
    destruct (Z.of_nat index =? Z.of_nat (length signers) - 1);
      [injection Hdown as <-; split; reflexivity |].
    destruct (signers !! index) as [moved |] eqn:Em; [| discriminate].
    destruct (signers !! (index + 1)%nat) as [below |] eqn:Eb; [| discriminate].
    injection Hdown as <-. rewrite Nat.add_1_r in Eb |- *.
    split.
    + rewrite person_renumber. apply fmap_Permutation.
      now apply swap_neighbours_perm.
    + now rewrite length_renumber, !length_insert.
Qed.

(** X15.  On a densely ordered list, moving a signer up and then moving the
    signer now one place higher down again gives back the list. *)
Theorem move_up_then_down index signers :
  denseOrder signers -> (0 < index < length signers)%nat ->
  exists moved,
    moveSignerUp index signers = Some moved
    /\ moveSignerDown (index - 1) moved = Some signers.
Proof.
  intros Hd [Hpos Hlt].
  destruct (lookup_lt_is_Some_2 signers (index - 1)) as [above Ea]; [lia |].
  destruct (lookup_lt_is_Some_2 signers index) as [s Es]; [lia |].
  unfold moveSignerUp.
  destruct (index =? 0)%nat eqn:E0; [apply Nat.eqb_eq in E0; lia |].
  rewrite Ea, Es. eexists. split; [reflexivity |].
  set (swapped := <[(index - 1)%nat := s]> (<[index := above]> signers)).
  assert (length swapped = length signers) as Hlen
    by (unfold swapped; now rewrite !length_insert).
  assert (swapped !! (index - 1)%nat = Some s) as Hs1
    by (unfold swapped; apply list_lookup_insert_eq; rewrite length_insert; lia).
  assert (swapped !! index = Some above) as Hs2.
  { unfold swapped. rewrite list_lookup_insert_ne by lia.
    apply list_lookup_insert_eq. lia. }
  unfold moveSignerDown. rewrite length_renumber, Hlen.
  destruct (Z.of_nat (index - 1) =? Z.of_nat (length signers) - 1) eqn:Elast;
    [apply Z.eqb_eq in Elast; lia |].
  replace (index - 1 + 1)%nat with index by lia.
  rewrite !lookup_renumber, Hs1, Hs2. simpl. f_equal.
  apply list_eq. intros i. rewrite lookup_renumber.
  destruct (decide (i = (index - 1)%nat)) as [-> | Hne1].
  - rewrite list_lookup_insert_eq
      by (rewrite length_insert, length_renumber; lia).
    simpl. rewrite setOrder_setOrder, Ea.
    rewrite <- (Hd _ _ Ea). now rewrite setOrder_same.
  - rewrite list_lookup_insert_ne by congruence.
    destruct (decide (i = index)) as [-> | Hne2].
    + rewrite list_lookup_insert_eq by (rewrite length_renumber; lia).
      simpl. replace (index - 1 + 1)%nat with index by lia.
      rewrite setOrder_setOrder, Es.
      rewrite <- (Hd _ _ Es). now rewrite setOrder_same.
    + rewrite list_lookup_insert_ne by congruence.
      rewrite lookup_renumber. unfold swapped.
      rewrite !list_lookup_insert_ne by congruence.
      destruct (signers !! i) as [si |] eqn:Ei; simpl; [| reflexivity].
      rewrite setOrder_setOrder, <- (Hd _ _ Ei). now rewrite setOrder_same.
Qed.

(** X16.  A contact of the search list is added at most once: after the
    click the contact counts as added, and a second click changes
    nothing. *)
Theorem addFromContact_once contact signers :
  alreadyAdded contact (addFromContact contact signers) = true
  /\ addFromContact contact (addFromContact contact signers)
     = addFromContact contact signers.
Proof.
  assert (alreadyAdded contact (addFromContact contact signers) = true) as Hadded.
  { unfold addFromContact.
    destruct (alreadyAdded contact signers) eqn:E; [exact E |].
    unfold alreadyAdded, addSigner. rewrite existsb_app. simpl.
    rewrite bool_decide_eq_true_2 by reflexivity.
    now rewrite orb_true_r. }
  split; [exact Hadded |].
  unfold addFromContact at 1. now rewrite Hadded.
Qed.
End SignerEdits.

(** The list Amy, Bo, Cy after Bo is removed. *)
Lemma removeSigner_others_witness :
  S (length (SignerList.removeSigner 1
               [SampleSigners.amy; SampleSigners.bo; SampleSigners.cy])) = 3%nat.
Proof.
  apply (proj2 (proj2 (removeSigner_others 1
                  [SampleSigners.amy; SampleSigners.bo; SampleSigners.cy]))).
  simpl. lia.
Defined.

(** Cy moved up in front of Bo. *)
Lemma edits_keep_dense_order_witness :
  SignerList.denseOrder
    (SignerList.renumber [SampleSigners.amy; SampleSigners.cy; SampleSigners.bo]).
Proof.
  apply (edits_keep_dense_order (SignerList.MoveUp 2)
           [SampleSigners.amy; SampleSigners.bo; SampleSigners.cy]).
  - intros [| [| [| i]]] s; simpl; try discriminate; now intros [= <-].
  - exact I.
  - reflexivity.
Defined.

Lemma move_same_signers_witness :
  SignerList.person <$>
    SignerList.renumber [SampleSigners.amy; SampleSigners.cy; SampleSigners.bo]
  ≡ₚ SignerList.person <$> [SampleSigners.amy; SampleSigners.bo; SampleSigners.cy]
  /\ length (SignerList.renumber
               [SampleSigners.amy; SampleSigners.cy; SampleSigners.bo])
     = length [SampleSigners.amy; SampleSigners.bo; SampleSigners.cy].
Proof.
  apply (move_same_signers 2
           [SampleSigners.amy; SampleSigners.bo; SampleSigners.cy]).
  left. reflexivity.
Defined.

Lemma move_up_then_down_witness :
  exists moved,
    SignerList.moveSignerUp 2
      [SampleSigners.amy; SampleSigners.bo; SampleSigners.cy] = Some moved
    /\ SignerList.moveSignerDown 1 moved
       = Some [SampleSigners.amy; SampleSigners.bo; SampleSigners.cy].
Proof.
  apply (move_up_then_down 2
           [SampleSigners.amy; SampleSigners.bo; SampleSigners.cy]).
  - intros [| [| [| i]]] s; simpl; try discriminate; now intros [= <-].
  - simpl. lia.
Defined.

(** ** Validation and the edits *)

Section SignerValidationMore.
Context `{CaseMapping}.
Import SignerSetup SignerList.

(** Validation passes exactly for well-formed signers with pairwise
    distinct addresses. *)
Lemma validateSigners_None signers :
  validateSigners signers = None <->
  forallb wellFormed signers = true
  /\ NoDup (List.map (fun s => toLowerCase (signerEmail s)) signers).
Proof.
  split.
  - intros Hv.
    assert (forallb wellFormed signers = true) as Hwf.
    { apply checkEachSigner_None. unfold validateSigners in Hv.
      destruct (checkEachSigner signers); [discriminate | reflexivity]. }
    split; [exact Hwf |].
    destruct (validateSigners_wellFormed signers Hwf) as [_ Hdup].
    destruct (decide (NoDup (List.map (fun s => toLowerCase (signerEmail s)) signers)))
      as [Hnd | Hnd]; [exact Hnd |].
    rewrite (Hdup Hnd) in Hv. discriminate.
  - intros [Hwf Hnd]. now apply (validateSigners_wellFormed signers Hwf).
Qed.

Lemma validity_of_persons signers :
  validateSigners signers = None <->
  Forall (fun p => wellFormed p = true) (person <$> signers)
  /\ NoDup ((fun s => toLowerCase (signerEmail s)) <$> (person <$> signers)).
Proof.
  rewrite validateSigners_None, forallb_forall, List.Forall_forall.
  rewrite <- list_fmap_compose.
  change (List.map ?f ?l) with (f <$> l).
  split; intros [Hwf Hnd]; (split; [| exact Hnd]).
  - intros p Hp. apply list_elem_of_In, list_elem_of_fmap in Hp as (s & -> & Hs).
    apply list_elem_of_In in Hs. now apply (Hwf s).
  - intros s Hs. change (wellFormed (person s) = true). apply Hwf.
    apply list_elem_of_In, list_elem_of_fmap. exists s.
    split; [reflexivity | now apply list_elem_of_In].
Qed.

(** X17.  Moving a signer up or down never changes whether the list passes
    validation. *)
Theorem move_keeps_validity index signers signers' :
  moveSignerUp index signers = Some signers'
  \/ moveSignerDown index signers = Some signers' ->
  (validateSigners signers' = None <-> validateSigners signers = None).
Proof.
  intros Hmove.
  pose proof (move_same_signers_aux index signers signers' Hmove) as Hperm.
  rewrite !validity_of_persons. now rewrite Hperm.
Qed.




Lemma posted_map_Post (l : list Signer) : posted (List.map Post l) = l.
Proof. induction l as [| s l IH]; simpl; [reflexivity | now rewrite IH]. Qed.

End SignerValidationMore.

Lemma move_keeps_validity_witness :
  @SignerSetup.validateSigners Sample.asciiCase
    (SignerList.renumber [SampleSigners.amy; SampleSigners.cy; SampleSigners.bo])
  = None
  <-> @SignerSetup.validateSigners Sample.asciiCase
        [SampleSigners.amy; SampleSigners.bo; SampleSigners.cy] = None.
Proof.
  apply (@move_keeps_validity Sample.asciiCase 2
           [SampleSigners.amy; SampleSigners.bo; SampleSigners.cy]).
  left. reflexivity.
Defined.


(** ** More on the calls of a run *)

Section EmbedderMore.
Context `{PdfLib}.

Lemma stampField_page pageNum size f c p :
  In c (fst (stampField pageNum size f)) -> callPage c = Some p -> p = pageNum.
Proof.
  unfold stampField.
  assert (forall a b : Call,
            (forall q, callPage a = Some q -> q = pageNum) ->
            (forall q, callPage b = Some q -> q = pageNum) ->
            In c (fst (call a >> call b)) -> callPage c = Some p -> p = pageNum)
    as Htwo.
  { intros a b Ha Hb Hc Hp.
    apply bind_made in Hc as [Hc | Hc]; apply call_made in Hc; subst c; auto. }
  destruct (value f) as [[| ch v] |]; try (intros []).
  assert (In c (fst (tryCatch (embedImage pageNum (ch :: v) (absoluteBox f size))
                       (placeholder pageNum (absoluteBox f size)))) ->
          callPage c = Some p -> p = pageNum) as Himg.
  { unfold tryCatch.
    assert (In c (fst (embedImage pageNum (ch :: v) (absoluteBox f size))) ->
            callPage c = Some p -> p = pageNum) as Htry.
    { unfold embedImage.
      destruct (dataURLToBytes (ch :: v)) as [bytes |]; [| intros []].
      destruct (includes (ch :: v) (str "png"));
        apply Htwo; simpl; congruence. }
    destruct (snd (embedImage pageNum (ch :: v) (absoluteBox f size)));
      [exact Htry |].
    cbn [fst]. intros Hc. apply in_app_or in Hc as [Hc | Hc]; [now apply Htry |].
    revert Hc. unfold placeholder. apply Htwo; simpl; congruence. }
  destruct (type f).
  - destruct (startsWith (ch :: v) (str "data:image/")); [exact Himg | intros []].
  - destruct (startsWith (ch :: v) (str "data:image/")); [exact Himg | intros []].
  - apply Htwo; simpl; congruence.
  - apply Htwo; simpl; congruence.
  - intros Hc Hp.
    apply bind_made in Hc as [Hc | Hc];
      [apply call_made in Hc; subst c; discriminate |].
    apply bind_made in Hc as [Hc | Hc];
      [apply call_made in Hc; subst c; simpl in Hp; congruence |].
    destruct (str_eqb (ch :: v) (str "checked")); [| destruct Hc].
    apply call_made in Hc. subst c. simpl in Hp. congruence.
Qed.

(** The calls for one signature are made on the page its key names, and
    only when it has a value. *)
Lemma stampAlone_calls loaded f c :
  In c (fst (stampAlone loaded f)) ->
  truthy (value f) = true
  /\ exists n size,
       Number.parseInt (pageKey f) = Some n
       /\ 0 <= Number.toDouble (n - 1) < Z.of_nat (length loaded)
       /\ nth_error loaded (Z.to_nat (Number.toDouble (n - 1))) = Some size
       /\ In c (fst (stampField (Z.to_nat (Number.toDouble (n - 1))) size f)).
Proof.
  unfold stampAlone, stampPage. cbn [fst snd].
  destruct (Number.parseInt (pageKey f)) as [n |]; [| intros []].
  destruct (Z.ltb_spec (Number.toDouble (n - 1)) 0) as [| Hlo]; [intros [] |].
  rewrite Z.geb_leb.
  destruct (Z.leb_spec (Z.of_nat (length loaded)) (Number.toDouble (n - 1)))
    as [| Hhi]; [intros [] |].
  cbn [orb].
  destruct (nth_error loaded (Z.to_nat (Number.toDouble (n - 1))))
    as [size |] eqn:E; [| intros []].
  rewrite forEach_one. intros Hc. split.
  - destruct (truthy (value f)) eqn:Ev; [reflexivity |].
    rewrite (stampField_no_value _ _ f Ev) in Hc. destruct Hc.
  - exists n, size. repeat split; [lia | lia | exact E | exact Hc].
Qed.

(** Every call of a run comes from the inner loop body for a signature
    with a value, on the page the outer loop computes from its key. *)
Lemma embedRun_call_source loaded signatures c :
  In c (fst (embedRun loaded signatures)) ->
  exists f n size,
    In f signatures /\ truthy (value f) = true
    /\ Number.parseInt (pageKey f) = Some n
    /\ 0 <= Number.toDouble (n - 1) < Z.of_nat (length loaded)
    /\ In c (fst (stampField (Z.to_nat (Number.toDouble (n - 1))) size f)).
Proof.
  intros Hc. apply In_embedRun in Hc as (f & Hin & Hc).
  apply stampAlone_calls in Hc as (Hv & n & size & Hn & Hrange & _ & Hc).
  now exists f, n, size.
Qed.

(** X19.  A run never draws outside the document: every image, text or
    rectangle call is on a page index below the number of pages, and that
    index is the one the outer loop computes from the key of a signature of
    the list that has a value; it is the signature's page number less one
    when that page number is a safe integer. *)
Theorem draws_on_existing_pages loaded signatures c p :
  In c (fst (embedRun loaded signatures)) -> callPage c = Some p ->
  (p < length loaded)%nat
  /\ exists f n,
       In f signatures /\ truthy (value f) = true
       /\ Number.parseInt (pageKey f) = Some n
       /\ Number.toDouble (n - 1) = Z.of_nat p
       /\ (Number.isSafeInteger (pageNumber f) -> pageNumber f = Z.of_nat p + 1).
Proof.
  intros Hc Hp.
  apply embedRun_call_source in Hc as (f & n & size & Hin & Hv & Hn & Hrange & Hc).
  apply (stampField_page _ _ _ _ p) in Hc; [| exact Hp]. subst p.
  split; [lia |].
  exists f, n. repeat split; [exact Hin | exact Hv | exact Hn | lia |].
  intros Hsafe. unfold pageKey in Hn.
  rewrite (NumberFacts.parseInt_toString _ Hsafe) in Hn. injection Hn as <-.
  unfold Number.isSafeInteger in Hsafe.
  rewrite NumberFacts.toDouble_safe in * by lia. lia.
Qed.

(** X2.  A TEXT or DATE field with a value, on a page of the document, is
    stamped by two calls: the plain Helvetica font and one text at the left
    of its box, of size [Math.min(0.6 * height, 12)] and no wider than the
    box.  When one of them throws, as [drawText] does on a text the font
    cannot encode, the whole run is rejected, whatever the other signatures
    are; when the run resolves, the text call has been made. *)
Theorem undrawable_text_rejects pdfBytes loaded signatures f v size :
  load pdfBytes = Some loaded -> In f signatures ->
  type f = TEXT \/ type f = DATE -> value f = Some v -> v <> [] ->
  Number.isSafeInteger (pageNumber f) -> 1 <= pageNumber f ->
  nth_error loaded (Z.to_nat (pageNumber f - 1)) = Some size ->
  let p := Z.to_nat (pageNumber f - 1) in
  let b := absoluteBox f size in
  let fontSize := Number.min (absHeight b * 0.6)%float 12%float in
  let text :=
    DrawText p v (absX b) (absY b + absHeight b / 2 - fontSize / 2)%float
      fontSize Helvetica black (Some (absWidth b)) in
  stampAlone loaded f = call (EmbedFont Helvetica) >> call text
  /\ (completes (EmbedFont Helvetica) = false \/ completes text = false ->
      embedSignaturesInPDF pdfBytes signatures = Rejected embedFailure)
  /\ (forall out,
        embedSignaturesInPDF pdfBytes signatures = Resolved out ->
        completes text = true /\ In text (fst (embedRun loaded signatures))).
Proof.
  intros Hload Hin Hty Hv Hne Hsafe Hlo Hn p b fontSize text.
  assert (stampAlone loaded f = call (EmbedFont Helvetica) >> call text) as Hf.
  { rewrite (stampAlone_on_page loaded f size Hsafe Hlo Hn).
    apply (stampField_text _ _ f v Hty Hv Hne). }
  split; [exact Hf |]. split.
  - intros Hthrows. unfold embedSignaturesInPDF, finish. rewrite Hload.
    destruct (snd (embedRun loaded signatures)) as [[] |] eqn:Hs; [| reflexivity].
    apply (proj1 (embedRun_settles loaded signatures)) with (f := f) in Hs;
      [| exact Hin].
    rewrite Hf, bind_settles, !call_settles in Hs.
    destruct Hs, Hthrows; congruence.
  - intros out Hout.
    apply (embedSignaturesInPDF_Resolved _ _ _ _ Hload) in Hout as [Hs _].
    pose proof (proj1 (embedRun_settles loaded signatures) Hs f Hin) as Hfs.
    rewrite Hf in Hfs.
    split; [now rewrite bind_settles, !call_settles in Hfs |].
    apply (In_embedRun_settled loaded signatures f _ Hs Hin).
    rewrite Hf, (two_calls _ _ Hfs). right. now left.
Qed.

Context `{MetadataHost}.


End EmbedderMore.

(** The text of a field of page 2 is drawn on page index 1. *)
Lemma draws_on_existing_pages_witness :
  let f := Sample.field TEXT 2 (Some (str "Doe")) in
  (1 < length [Sample.letter; Sample.letter])%nat
  /\ exists g n,
       In g [f] /\ truthy (value g) = true
       /\ Number.parseInt (pageKey g) = Some n
       /\ Number.toDouble (n - 1) = Z.of_nat 1
       /\ (Number.isSafeInteger (pageNumber g) -> pageNumber g = Z.of_nat 1 + 1).
Proof.
  apply (@draws_on_existing_pages Sample.lib [Sample.letter; Sample.letter]
           [Sample.field TEXT 2 (Some (str "Doe"))]
           (DrawText 1 (str "Doe") 61.2 120.71999999999997 12 Helvetica black
              (Some 122.4%float))
           1%nat).
  - vm_compute. right. left. reflexivity.
  - reflexivity.
Defined.

(** A name next to a text with a character outside the font: U+263A. *)
Lemma undrawable_text_rejects_witness :
  let f := Sample.field TEXT 2 (Some [0x263A%N]) in
  let fields := [Sample.field TEXT 1 (Some (str "Jane")); f] in
  let loaded := [Sample.letter; Sample.letter] in
  let b := absoluteBox f Sample.letter in
  let fontSize := Number.min (absHeight b * 0.6)%float 12%float in
  let text :=
    DrawText 1 [0x263A%N] (absX b)
      (absY b + absHeight b / 2 - fontSize / 2)%float
      fontSize Helvetica black (Some (absWidth b)) in
  @stampAlone Sample.lib loaded f
  = @call Sample.lib (EmbedFont Helvetica) >> @call Sample.lib text
  /\ (@completes Sample.lib (EmbedFont Helvetica) = false
      \/ @completes Sample.lib text = false ->
      @embedSignaturesInPDF Sample.lib Sample.pdf fields = Rejected embedFailure)
  /\ (forall out,
        @embedSignaturesInPDF Sample.lib Sample.pdf fields = Resolved out ->
        @completes Sample.lib text = true
        /\ In text (fst (@embedRun Sample.lib loaded fields))).
Proof.
  apply (@undrawable_text_rejects Sample.lib Sample.pdf
           [Sample.letter; Sample.letter]
           [Sample.field TEXT 1 (Some (str "Jane"));
            Sample.field TEXT 2 (Some [0x263A%N])]
           (Sample.field TEXT 2 (Some [0x263A%N])) [0x263A%N] Sample.letter).
  - reflexivity.
  - right. left. reflexivity.
  - left. reflexivity.
  - reflexivity.
  - discriminate.
  - unfold Number.isSafeInteger. simpl. lia.
  - simpl. lia.
  - reflexivity.
Defined.


(** ** The public signing page *)

Section PublicSigningFacts.
Import PublicSigning.

(** X22.  On the public signing page a click on a field of the session is
    refused as already signed exactly when the field has a signature, and
    refused as another signer's exactly when it has none and is not one of
    [getMyFields]; every other click acts on the field.  The required fields
    without signature among [getMyFields] are [getRequiredFieldsForMe]. *)
Theorem click_follows_getMyFields session currentDate answer field :
  In field (allFields session) ->
  let click := handleFieldClick (Some session) currentDate answer field in
  (click = AlreadySigned <-> is_Some (signature field))
  /\ (click = OtherSigner <->
      signature field = None /\ ~ In field (getMyFields (Some session)))
  /\ (In field (getRequiredFieldsForMe (Some session)) <->
      required field = true /\ signature field = None
      /\ In field (getMyFields (Some session))).
Proof.
  intros Hin click. subst click.
  assert (In field (getMyFields (Some session)) <-> mine session field = true)
    as Hmine by (unfold getMyFields; rewrite filter_In; tauto).
  assert (bool_decide (is_Some (signature field)) = true
          <-> is_Some (signature field)) as Hsigned by apply bool_decide_eq_true.
  assert (signature field = None <-> ~ is_Some (signature field)) as Hnone.
  { destruct (signature field) as [sig |].
    - split; [discriminate | intros Hn; destruct Hn; eauto].
    - split; [intros _ [? ?]; discriminate | reflexivity]. }
  split; [| split].
  - unfold handleFieldClick.
    destruct (bool_decide (is_Some (signature field))) eqn:E.
    + split; [intros _; now apply Hsigned | reflexivity].
    + split; [| intros Hs; apply Hsigned in Hs; congruence].
      destruct (truthy (signerId field)
                && negb (bool_decide (signerId field
                                      = option_map signer_id (Some session))));
        [discriminate |].
      destruct (type field), (truthy answer),
        (bool_decide (value field = Some (str "checked"))); discriminate.
  - rewrite Hmine, Hnone, <- Hsigned. unfold handleFieldClick, mine.
    cbn [option_map].
    destruct (bool_decide (is_Some (signature field))) eqn:E.
    + split; [discriminate | intros [Hn _]; now destruct Hn].
    + destruct (truthy (signerId field)); cbn [negb andb orb].
      * destruct (bool_decide (signerId field = Some (signer_id session)));
          cbn [negb].
        -- split; [| intros [_ Hm]; now destruct Hm].
           destruct (type field), (truthy answer),
             (bool_decide (value field = Some (str "checked"))); discriminate.
        -- split; [intros _; split; [discriminate | discriminate] | reflexivity].
      * split; [| intros [_ Hm]; now destruct Hm].
        destruct (type field), (truthy answer),
          (bool_decide (value field = Some (str "checked"))); discriminate.
  - unfold getRequiredFieldsForMe.
    rewrite filter_In, andb_true_iff, negb_true_iff. split.
    + intros (Hm & Hr & Hs). split; [exact Hr |]. split; [| exact Hm].
      apply Hnone. intros Hsome. apply Hsigned in Hsome. congruence.
    + intros (Hr & Hn & Hm). split; [exact Hm |]. split; [exact Hr |].
      apply not_true_iff_false. intros Hb. apply Hsigned in Hb.
      now apply Hnone in Hn.
Qed.
End PublicSigningFacts.

(** ** Further instances on the sample host *)

(** Amy clicks the date that is assigned to Bo. *)
Lemma click_follows_getMyFields_witness :
  let click :=
    PublicSigning.handleFieldClick (Some SampleHost.amySession)
      (str "5/1/2024") None SampleHost.forBo in
  (click = PublicSigning.AlreadySigned
   <-> is_Some (PublicSigning.signature SampleHost.forBo))
  /\ (click = PublicSigning.OtherSigner <->
      PublicSigning.signature SampleHost.forBo = None
      /\ ~ In SampleHost.forBo
            (PublicSigning.getMyFields (Some SampleHost.amySession)))
  /\ (In SampleHost.forBo
        (PublicSigning.getRequiredFieldsForMe (Some SampleHost.amySession)) <->
      PublicSigning.required SampleHost.forBo = true
      /\ PublicSigning.signature SampleHost.forBo = None
      /\ In SampleHost.forBo
           (PublicSigning.getMyFields (Some SampleHost.amySession))).
Proof.
  apply (click_follows_getMyFields SampleHost.amySession (str "5/1/2024") None
           SampleHost.forBo).
  right. left. reflexivity.
Defined.

(** A filled list has no next field. *)
Lemma all_signed_iff_no_next_witness :
  getNextRequiredField [Sample.field TEXT 1 (Some (str "Jane"))] None = None.
Proof.
  apply (proj1 (all_signed_iff_no_next
                  [Sample.field TEXT 1 (Some (str "Jane"))] None)).
  reflexivity.
Defined.

(** The parts of a plain address. *)
Lemma validateEmail_shape_witness :
  exists localPart domain tld,
    str "amy@sun.co" = localPart ++ str "@" ++ domain ++ str "." ++ tld
    /\ addressPart localPart /\ addressPart domain /\ addressPart tld.
Proof.
  apply (proj1 (validateEmail_shape (str "amy@sun.co"))). reflexivity.
Defined.
